(** * The JOS kernel monitor (kern/monitor.c)

    A shallow embedding of the command-line kernel monitor: the command
    table, the two diagnostic commands [backtrace] and [showmappings],
    the in-place line tokenizer and dispatcher [runcmd], and the
    read-eval loop [monitor].

    Conventions.
    - A [uint32_t] / [uintptr_t] is a [Z] reduced with [wrap32]; an [int]
      return code is a [Z].
    - The console, the symbol table, the page-table walker, the number
      parser and the line reader are collaborators of the monitor whose
      code lives in other files of the kernel; they are variables of
      the section.
    - Every call the monitor makes to the outside world is recorded, in
      program order, in a trace of [event]s.
    - The loops whose exit depends on the state of the machine (the
      walk up the frame chain, the walk over the address range, the
      read-eval loop) take a [fuel] bound; [None] means that the bound
      was reached with the loop still running.  The loops over the line
      buffer are bounded by the length of the buffer, and are shown to
      end before the bound. *)

From Stdlib Require Import ZArith Lia Ascii.
From stdpp Require Import base numbers list strings sorting.

Local Open Scope string_scope.
Local Open Scope list_scope.
Local Open Scope Z_scope.

(** ** Machine words *)

Definition wrap32 (z : Z) : Z := z mod 2 ^ 32.

(** ** Paging constants

    Modelled from the spec: [inc/mmu.h] and [inc/memlayout.h] are not
    part of the sources at hand.  The page size, the three permission
    bits of a page-table entry, the mask that extracts the physical
    frame and the kernel base are those of 32-bit x86 two-level paging,
    the machine [monitor.c] is written for ([read_ebp], [rcr3]). *)

Definition PGSIZE : Z := 4096.
Definition PTE_P : Z := 1.
Definition PTE_W : Z := 2.
Definition PTE_U : Z := 4.
Definition PTE_ADDR (pte : Z) : Z := Z.land pte (wrap32 (Z.lnot 4095)).
Definition KERNBASE : Z := 4026531840.

(** ** Observable events *)

Inductive arg : Type :=
| AInt (z : Z)
| AStr (s : string).

(** [Cprintf fmt args] is one call of the console's [cprintf]; the format
    is kept as it is written in the C source (escapes included).
    [Deref base i] is the read of [((uint32_t * ) base)[i]].
    [PgdirWalk pgdir va create] and [DebuginfoEip eip] are the calls of
    the two lookup collaborators; [Readline prompt] is a call of the
    line reader. *)
Inductive event : Type :=
| Cprintf (fmt : string) (args : list arg)
| Deref (base idx : Z)
| PgdirWalk (pgdir va create : Z)
| DebuginfoEip (eip : Z)
| Readline (prompt : string).

Definition trace : Type := list event.

(** ** The monad of monitor code: a trace of events, or out of fuel *)

Definition M (A : Type) : Type := option (A * trace).

Definition ret {A} (a : A) : M A := Some (a, []).

Definition bind {A B} (m : M A) (k : A -> M B) : M B :=
  match m with
  | None => None
  | Some (a, t) =>
      match k a with
      | None => None
      | Some (b, t') => Some (b, t ++ t')
      end
  end.

Definition emit (e : event) : M unit := Some (tt, [e]).

Declare Scope mon_scope.
Delimit Scope mon_scope with mon.
Notation "x <- m ;; k" := (bind m (fun x => k))
  (at level 100, m at next level, k at level 200, right associativity) : mon_scope.
Notation "m ;; k" := (bind m (fun _ => k))
  (at level 100, k at level 200, right associativity) : mon_scope.
Local Open Scope mon_scope.

Definition cprintf (fmt : string) (args : list arg) : M unit :=
  emit (Cprintf fmt args).

(** A counted [for] loop over the values of its index. *)
Fixpoint for_each {A} (l : list A) (body : A -> M unit) : M unit :=
  match l with
  | [] => ret tt
  | a :: l' => body a ;; for_each l' body
  end.

(** What the console received: the [cprintf] calls of a trace. *)
Definition console (t : trace) : list (string * list arg) :=
  omap (fun e => match e with Cprintf f a => Some (f, a) | _ => None end) t.

(** The pointers a trace dereferences. *)
Definition deref_bases (t : trace) : list Z :=
  omap (fun e => match e with Deref b _ => Some b | _ => None end) t.

(** The virtual addresses a trace hands to the page-table walker. *)
Definition walked (t : trace) : list Z :=
  omap (fun e => match e with PgdirWalk _ va _ => Some va | _ => None end) t.

(** ** Data of the monitor *)

(** [struct Command]; the handler is a function pointer, resolved by the
    [call] function of whoever owns the table. *)
Record Command (F : Type) : Type := mkCommand {
  name : string;
  desc : string;
  func : F
}.
Arguments mkCommand {F} _ _ _.
Arguments name {F} _.
Arguments desc {F} _.
Arguments func {F} _.

(** The fields of [struct Eipdebuginfo] (declared in [kern/kdebug.h])
    that the monitor reads. *)
Record Eipdebuginfo : Type := mkEipdebuginfo {
  eip_file : string;
  eip_line : Z;
  eip_fn_name : string;
  eip_fn_namelen : Z;
  eip_fn_addr : Z
}.

(** The type of a command handler: [int f(int argc, char **argv, struct
    Trapframe *tf)], with the fuel of its loops in front. *)
Definition handler : Type := nat -> nat -> list string -> Z -> M Z.

(** [argv[i]] *)
Definition argv_at (argv : list string) (i : nat) : string :=
  default "" (argv !! i).

Definition CMDBUF_SIZE : Z := 80.
Definition WHITESPACE : string :=
  String "009"%char (String "013"%char (String "010"%char (String " "%char EmptyString))).
Definition MAXARGS : nat := 16.

(** The functions of the built-in table. *)
Inductive builtin : Type :=
| Mon_help
| Mon_kerninfo
| Mon_backtrace
| Mon_showmappings.

Definition commands : list (Command builtin) :=
  [ mkCommand "help" "Display this list of commands" Mon_help;
    mkCommand "kerninfo" "Display information about the kernel" Mon_kerninfo;
    mkCommand "backtrace" "Display information about the backtrace" Mon_backtrace;
    mkCommand "showmappings"
      "Display memory mappings for a range of virtual addresses" Mon_showmappings ].

Definition NCOMMANDS : nat := length commands.

Section Monitor.

(** *** Collaborators *)

(** The value of the frame-pointer register when [mon_backtrace] runs. *)
Variable read_ebp : Z.
(** Memory, read one 32-bit word at a byte address. *)
Variable mem : Z -> Z.
(** [debuginfo_eip(eip, &info)]: the return code and the filled record. *)
Variable debuginfo_eip : Z -> Z * Eipdebuginfo.
(** The page-directory register, the kernel's physical-to-virtual
    translation (taken as total: the panic of [KADDR] on an address
    beyond physical memory is not modelled) and the page-table walker
    (a null pointer is 0). *)
Variable rcr3 : Z.
Variable KADDR : Z -> Z.
Variable pgdir_walk : Z -> Z -> Z -> Z.
(** [strtol(s, NULL, 0)] *)
Variable strtol : string -> Z.
(** The linker symbols printed by [kerninfo]. *)
Variables sym_start sym_entry sym_etext sym_edata sym_end : Z.

(** [((uint32_t * ) base)[idx]]: the word stored [idx] words above
    [base], and the read of it. *)
Definition word (base idx : Z) : Z := wrap32 (mem (wrap32 (base + 4 * idx))).

Definition load (base idx : Z) : M Z :=
  emit (Deref base idx) ;;
  ret (word base idx).

(** *** mon_help *)

Definition mon_help (fuel : nat) (argc : nat) (argv : list string) (tf : Z) : M Z :=
  for_each commands
    (fun c => cprintf "%s - %s\n" [AStr (name c); AStr (desc c)]) ;;
  ret 0.

(** *** mon_kerninfo *)

(** Modelled from the spec: the macro [ROUNDUP] of [inc/types.h], which
    is not part of the sources at hand, rounds a 32-bit word up to the
    next multiple of [n]. *)
Definition ROUNDUP (a n : Z) : Z := wrap32 (a + n - 1) / n * n.

Definition mon_kerninfo (fuel : nat) (argc : nat) (argv : list string) (tf : Z) : M Z :=
  cprintf "Special kernel symbols:\n" [] ;;
  cprintf "  _start                  %08x (phys)\n" [AInt sym_start] ;;
  cprintf "  entry  %08x (virt)  %08x (phys)\n"
    [AInt sym_entry; AInt (wrap32 (sym_entry - KERNBASE))] ;;
  cprintf "  etext  %08x (virt)  %08x (phys)\n"
    [AInt sym_etext; AInt (wrap32 (sym_etext - KERNBASE))] ;;
  cprintf "  edata  %08x (virt)  %08x (phys)\n"
    [AInt sym_edata; AInt (wrap32 (sym_edata - KERNBASE))] ;;
  cprintf "  end    %08x (virt)  %08x (phys)\n"
    [AInt sym_end; AInt (wrap32 (sym_end - KERNBASE))] ;;
  cprintf "Kernel executable memory footprint: %dKB\n"
    [AInt (ROUNDUP (sym_end - sym_entry) 1024 / 1024)] ;;
  ret 0.

(** *** mon_backtrace *)

(** The symbolic line of a frame: printed when [debuginfo_eip] returns 0. *)
Definition backtrace_symbol (eip : Z) : M unit :=
  emit (DebuginfoEip eip) ;;
  let '(rc, info) := debuginfo_eip eip in
  if rc =? 0 then
    cprintf "\t%s:%d: %.*s+%d\n"
      [AStr (eip_file info); AInt (eip_line info);
       AInt (eip_fn_namelen info); AStr (eip_fn_name info);
       AInt (wrap32 (eip - eip_fn_addr info))]
  else ret tt.

(** The body of the [while (ebp)] loop; its value is the next [ebp]. *)
Definition backtrace_frame (ebp : Z) : M Z :=
  eip <- load ebp 1 ;;
  cprintf "  ebp %08x eip %08x " [AInt ebp; AInt eip] ;;
  cprintf "args " [] ;;
  for_each (seqZ 1 5)
    (fun i => w <- load ebp (1 + i) ;; cprintf "%08x " [AInt w]) ;;
  cprintf "\n" [] ;;
  backtrace_symbol eip ;;
  load ebp 0.

Fixpoint backtrace_loop (fuel : nat) (ebp : Z) : M unit :=
  match fuel with
  | O => None
  | S fuel' =>
      if ebp =? 0 then ret tt
      else ebp' <- backtrace_frame ebp ;; backtrace_loop fuel' ebp'
  end.

Definition mon_backtrace (fuel : nat) (argc : nat) (argv : list string) (tf : Z) : M Z :=
  cprintf "Stack backtrace:\n" [] ;;
  backtrace_loop fuel (wrap32 read_ebp) ;;
  ret 0.

(** *** mon_showmappings *)

(** The body of the [for] loop over [va]: one page is looked up and
    reported.  [*pte] is read once for the test and once for each of the
    four values printed. *)
Definition showmappings_page (pgdir va : Z) : M unit :=
  emit (PgdirWalk pgdir va 0) ;;
  let pte := pgdir_walk pgdir va 0 in
  if pte =? 0 then cprintf "va 0x%x is not mapped\n" [AInt va]
  else
    e <- load pte 0 ;;
    if Z.land e PTE_P =? 0 then cprintf "va 0x%x is not mapped\n" [AInt va]
    else
      e1 <- load pte 0 ;;
      e2 <- load pte 0 ;;
      e3 <- load pte 0 ;;
      e4 <- load pte 0 ;;
      cprintf "va 0x%x: 0x%x PTE_P %d PTE_W %d PTE_U %d\n"
        [AInt va; AInt (PTE_ADDR e1); AInt (Z.land e2 PTE_P);
         AInt (Z.land e3 PTE_W); AInt (Z.land e4 PTE_U)].

(** [for (va = va_arg[0]; va <= va_arg[1]; va += PGSIZE)]: [va] is a
    [uintptr_t], so the increment wraps at [2^32]. *)
Fixpoint showmappings_loop (fuel : nat) (pgdir va end_va : Z) : M unit :=
  match fuel with
  | O => None
  | S fuel' =>
      if va <=? end_va then
        showmappings_page pgdir va ;;
        showmappings_loop fuel' pgdir (wrap32 (va + PGSIZE)) end_va
      else ret tt
  end.

(** [for (i = 1; i < argc; i++) va_arg[i - 1] = (uintptr_t) strtol(argv[i], NULL, 0);] *)
Definition parse_va_args (argc : nat) (argv : list string) : list Z :=
  foldl (fun va_arg i => <[(i - 1)%nat := wrap32 (strtol (argv_at argv i))]> va_arg)
        [0; 0] (seq 1 (argc - 1)).

Definition mon_showmappings (fuel : nat) (argc : nat) (argv : list string) (tf : Z) : M Z :=
  if negb (argc =? 3)%nat then
    cprintf "usage: showmappings begin_va end_va\n" [] ;;
    ret 0
  else
    let va_arg := parse_va_args argc argv in
    let va_arg0 := default 0 (va_arg !! 0%nat) in
    let va_arg1 := default 0 (va_arg !! 1%nat) in
    if va_arg0 >? va_arg1 then
      cprintf "begin va (0x%x) is greater than end va (0x%x)\n"
        [AInt va_arg0; AInt va_arg1] ;;
      ret 0
    else
      let pgdir := KADDR (wrap32 rcr3) in
      showmappings_loop fuel pgdir va_arg0 va_arg1 ;;
      ret 0.

(** The function behind each pointer of the built-in table. *)
Definition call_builtin (f : builtin) : handler :=
  match f with
  | Mon_help => mon_help
  | Mon_kerninfo => mon_kerninfo
  | Mon_backtrace => mon_backtrace
  | Mon_showmappings => mon_showmappings
  end.

(** *** The frame chain and the lines of a frame, as the specification
    words them *)

(** [frame_chain ebp fps]: starting at [ebp], the saved links (word 0 of
    each frame) run through the frames [fps], in this order, and the last
    link read is the zero sentinel. *)
Inductive frame_chain : Z -> list Z -> Prop :=
| chain_root : frame_chain 0 []
| chain_link (fp : Z) (fps : list Z) :
    fp <> 0 -> frame_chain (word fp 0) fps -> frame_chain fp (fp :: fps).


(** The primary line of the frame at [fp]: the frame pointer, the return
    address one word above it, and the five words above that. *)
Definition frame_line (fp : Z) : list (string * list arg) :=
  [ ("  ebp %08x eip %08x ", [AInt fp; AInt (word fp 1)]);
    ("args ", []);
    ("%08x ", [AInt (word fp 2)]);
    ("%08x ", [AInt (word fp 3)]);
    ("%08x ", [AInt (word fp 4)]);
    ("%08x ", [AInt (word fp 5)]);
    ("%08x ", [AInt (word fp 6)]);
    ("\n", []) ].

(** The symbolic line of a return address: present when the lookup
    succeeds (return code 0). *)
Definition symbol_line (eip : Z) : list (string * list arg) :=
  let info := (debuginfo_eip eip).2 in
  if (debuginfo_eip eip).1 =? 0 then
    [ ("\t%s:%d: %.*s+%d\n",
       [AStr (eip_file info); AInt (eip_line info);
        AInt (eip_fn_namelen info); AStr (eip_fn_name info);
        AInt (wrap32 (eip - eip_fn_addr info))]) ]
  else [].

(** The number of primary frame lines on the console. *)
Definition frame_line_count (t : trace) : nat :=
  length (filter (fun c => c.1 = "  ebp %08x eip %08x ") (console t)).

(** The report of one page: "not mapped" when the walker finds no entry
    or the entry is not present, the frame and the three bits otherwise. *)
Definition page_report (pgdir va : Z) : list (string * list arg) :=
  let pte := pgdir_walk pgdir va 0 in
  let e := word pte 0 in
  if (pte =? 0) || (Z.land e PTE_P =? 0) then
    [ ("va 0x%x is not mapped\n", [AInt va]) ]
  else
    [ ("va 0x%x: 0x%x PTE_P %d PTE_W %d PTE_U %d\n",
       [AInt va; AInt (PTE_ADDR e); AInt (Z.land e PTE_P);
        AInt (Z.land e PTE_W); AInt (Z.land e PTE_U)]) ].

(** The addresses [begin], [begin + PGSIZE], ... that do not exceed
    [end_va]. *)
Definition page_steps (begin end_va : Z) : list Z :=
  (fun k => begin + k * PGSIZE) <$> seqZ 0 ((end_va - begin) / PGSIZE + 1).

(** The values [va] takes in the loop of [mon_showmappings], were the
    loop never left: [n] increments, each wrapping at [2^32]. *)
Definition va_after (n : nat) (va : Z) : Z :=
  Nat.iter n (fun va => wrap32 (va + PGSIZE)) va.


(** *** Facts about the monad and the observations *)

Lemma bind_Some {A B} (m : M A) (k : A -> M B) b t :
  bind m k = Some (b, t) ->
  exists a t1 t2, m = Some (a, t1) /\ k a = Some (b, t2) /\ t = t1 ++ t2.
Proof.
  unfold bind. destruct m as [[a t1]|]; [|discriminate].
  destruct (k a) as [[b' t2]|] eqn:Hk; [|discriminate].
  intros [= <- <-]. eauto 6.
Qed.

Lemma bind_run {A B} (m : M A) (k : A -> M B) a t1 b t2 :
  m = Some (a, t1) -> k a = Some (b, t2) -> bind m k = Some (b, t1 ++ t2).
Proof. intros -> Hk. unfold bind. by rewrite Hk. Qed.

Lemma bind_None_l {A B} (m : M A) (k : A -> M B) : m = None -> bind m k = None.
Proof. by intros ->. Qed.

Lemma bind_None_r {A B} (m : M A) (k : A -> M B) a t :
  m = Some (a, t) -> k a = None -> bind m k = None.
Proof. intros -> Hk. unfold bind. by rewrite Hk. Qed.

Lemma console_app t1 t2 : console (t1 ++ t2) = console t1 ++ console t2.
Proof. apply omap_app. Qed.

Lemma deref_bases_app t1 t2 : deref_bases (t1 ++ t2) = deref_bases t1 ++ deref_bases t2.
Proof. apply omap_app. Qed.

Lemma walked_app t1 t2 : walked (t1 ++ t2) = walked t1 ++ walked t2.
Proof. apply omap_app. Qed.

(** *** The stack unwinder *)

Lemma backtrace_symbol_run eip :
  exists t, backtrace_symbol eip = Some (tt, t)
            /\ console t = symbol_line eip /\ deref_bases t = [].
Proof.
  unfold backtrace_symbol, symbol_line.
  destruct (debuginfo_eip eip) as [rc info]; simpl.
  destruct (rc =? 0); eexists; (split; [reflexivity|]); by split.
Qed.

Lemma backtrace_frame_run ebp :
  exists t, backtrace_frame ebp = Some (word ebp 0, t)
            /\ console t = frame_line ebp ++ symbol_line (word ebp 1)
            /\ Forall (eq ebp) (deref_bases t).
Proof.
  destruct (backtrace_symbol_run (word ebp 1)) as (ts & Hs & Hc & Hd).
  unfold backtrace_frame. simpl. rewrite Hs. simpl.
  eexists; split; [reflexivity|]. split.
  - simpl. rewrite console_app, Hc.
    change (console [Deref ebp 0]) with (@nil (string * list arg)).
    rewrite app_nil_r. reflexivity.
  - simpl. rewrite deref_bases_app, Hd. simpl. by repeat constructor.
Qed.

Lemma backtrace_loop_chain ebp fps :
  frame_chain ebp fps ->
  exists t,
    (forall fuel, (length fps < fuel)%nat -> backtrace_loop fuel ebp = Some (tt, t))
    /\ console t = flat_map (fun fp => frame_line fp ++ symbol_line (word fp 1)) fps
    /\ Forall (fun b => b <> 0 /\ b ∈ fps) (deref_bases t).
Proof.
  induction 1 as [|fp fps Hfp Hch (t & Hrun & Hcon & Hder)].
  - exists []. split; [|by split; [|constructor]].
    intros [|fuel] Hlt; [simpl in Hlt; lia | reflexivity].
  - destruct (backtrace_frame_run fp) as (tf & Hf & Hfc & Hfd).
    exists (tf ++ t). split; [|split].
    + intros [|fuel] Hlt; simpl in Hlt; [lia|].
      simpl. destruct (Z.eqb_spec fp 0) as [|_]; [done|].
      apply (bind_run _ _ _ _ _ _ Hf). apply Hrun. lia.
    + rewrite console_app, Hfc, Hcon. reflexivity.
    + rewrite deref_bases_app. apply Forall_app. split.
      * eapply Forall_impl; [exact Hfd|]. intros b <-. split; [done|]. apply list_elem_of_here.
      * eapply Forall_impl; [exact Hder|]. intros b [? ?]. split; [done|].
        by apply list_elem_of_further.
Qed.

Lemma frame_line_count_chain fps :
  length (filter (fun c : string * list arg => c.1 = "  ebp %08x eip %08x ")
            (flat_map (fun fp => frame_line fp ++ symbol_line (word fp 1)) fps))
  = length fps.
Proof.
  induction fps as [|fp fps IH]; [reflexivity|].
  cbn [flat_map]. rewrite !filter_app, !length_app, IH.
  assert (filter (fun c : string * list arg => c.1 = "  ebp %08x eip %08x ")
            (symbol_line (word fp 1)) = []) as ->.
  { unfold symbol_line. by destruct (_ =? 0). }
  reflexivity.
Qed.

(** C2.  On a synthetic frame chain of length N (word 0 of each frame
    holds the previous frame pointer, the last link is zero) the
    unwinder returns, prints exactly N primary frame lines, each made of
    the frame pointer, the return address one word above it and the five
    words above that, and dereferences only through the frames of the
    chain, never through a zero frame pointer. *)
Theorem backtrace_synthetic_chain (fps : list Z) (argc : nat) (argv : list string) (tf : Z) :
  frame_chain (wrap32 read_ebp) fps ->
  exists t,
    (forall fuel, (length fps < fuel)%nat ->
       mon_backtrace fuel argc argv tf = Some (0, t))
    /\ console t =
         ("Stack backtrace:\n", [])
         :: flat_map (fun fp => frame_line fp ++ symbol_line (word fp 1)) fps
    /\ frame_line_count t = length fps
    /\ Forall (fun b => b <> 0 /\ b ∈ fps) (deref_bases t).
Proof.
  intros Hch.
  destruct (backtrace_loop_chain _ _ Hch) as (t & Hrun & Hcon & Hder).
  exists (Cprintf "Stack backtrace:\n" [] :: t ++ []).
  split; [|split; [|split]].
  - intros fuel Hlt. unfold mon_backtrace.
    apply (bind_run _ _ tt [Cprintf "Stack backtrace:\n" []] 0 (t ++ [])); [reflexivity|].
    apply (bind_run _ _ tt t 0 []); [by apply Hrun | reflexivity].
  - rewrite app_nil_r. simpl. by rewrite Hcon.
  - unfold frame_line_count. rewrite app_nil_r. simpl. rewrite Hcon.
    rewrite filter_cons_False by (simpl; congruence).
    apply frame_line_count_chain.
  - rewrite app_nil_r. exact Hder.
Qed.



(** *** The mapping inspector *)

Lemma showmappings_page_run pgdir va :
  exists t, showmappings_page pgdir va = Some (tt, t)
            /\ walked t = [va] /\ console t = page_report pgdir va.
Proof.
  unfold showmappings_page, page_report.
  destruct (pgdir_walk pgdir va 0 =? 0); simpl.
  - eexists; split; [reflexivity|]. by split.
  - destruct (Z.land (word (pgdir_walk pgdir va 0) 0) PTE_P =? 0);
      eexists; (split; [reflexivity|]); by split.
Qed.

Lemma parse_va_args_3 argv :
  parse_va_args 3 argv =
    [wrap32 (strtol (argv_at argv 1)); wrap32 (strtol (argv_at argv 2))].
Proof. reflexivity. Qed.

Lemma wrap32_range z : 0 <= wrap32 z < 2 ^ 32.
Proof. unfold wrap32. apply Z.mod_pos_bound. lia. Qed.

Lemma wrap32_small z : 0 <= z < 2 ^ 32 -> wrap32 z = z.
Proof. unfold wrap32. apply Z.mod_small. Qed.

Lemma page_steps_nil va end_va : end_va < va -> page_steps va end_va = [].
Proof.
  intros Hlt. unfold page_steps. rewrite seqZ_nil; [done|].
  assert ((end_va - va) / PGSIZE < 0); [|lia].
  apply Z.div_lt_upper_bound; unfold PGSIZE; lia.
Qed.

Lemma page_steps_cons va end_va :
  va <= end_va -> page_steps va end_va = va :: page_steps (va + PGSIZE) end_va.
Proof.
  intros Hle. unfold page_steps.
  assert (0 <= (end_va - va) / PGSIZE) by (apply Z.div_pos; unfold PGSIZE; lia).
  rewrite seqZ_cons by lia. rewrite fmap_cons. f_equal; [lia|].
  replace (Z.pred ((end_va - va) / PGSIZE + 1))
    with ((end_va - (va + PGSIZE)) / PGSIZE + 1).
  2:{ replace (end_va - (va + PGSIZE)) with (end_va - va + (-1) * PGSIZE) by lia.
      rewrite Z.div_add by (unfold PGSIZE; lia). lia. }
  change (Z.succ 0) with (1 + 0). rewrite <- fmap_add_seqZ, <- list_fmap_compose.
  apply list_fmap_ext. intros _ k _. simpl. lia.
Qed.

(** Below the last page of the address space the increment never wraps,
    and the loop runs through [page_steps]. *)
Lemma showmappings_loop_run pgdir end_va :
  end_va < 2 ^ 32 - PGSIZE ->
  forall (n : nat) va,
    0 <= va -> (end_va - va) / PGSIZE + 1 <= Z.of_nat n ->
    exists t,
      (forall fuel, (n < fuel)%nat ->
         showmappings_loop fuel pgdir va end_va = Some (tt, t))
      /\ walked t = page_steps va end_va
      /\ console t = flat_map (page_report pgdir) (page_steps va end_va).
Proof.
  intros Hend. induction n as [|n IH]; intros va Hva Hn.
  - assert (end_va < va) as Hlt.
    { destruct (Z_lt_le_dec end_va va) as [|Hle]; [done|].
      assert (0 <= (end_va - va) / PGSIZE) by (apply Z.div_pos; unfold PGSIZE; lia).
      lia. }
    exists []. rewrite page_steps_nil by done. split; [|done].
    intros [|fuel] ?; [lia|]. simpl.
    destruct (Z.leb_spec va end_va); [lia|done].
  - destruct (Z_lt_le_dec end_va va) as [Hlt|Hle].
    + exists []. rewrite page_steps_nil by done. split; [|done].
      intros [|fuel] ?; [lia|]. simpl.
      destruct (Z.leb_spec va end_va); [lia|done].
    + destruct (showmappings_page_run pgdir va) as (tp & Hp & Hpw & Hpc).
      destruct (IH (va + PGSIZE)) as (t & Hrun & Hw & Hc); [unfold PGSIZE; lia| |].
      { replace (end_va - (va + PGSIZE)) with (end_va - va + (-1) * PGSIZE) by lia.
        rewrite Z.div_add by (unfold PGSIZE; lia). lia. }
      exists (tp ++ t). rewrite page_steps_cons by done. split; [|split].
      * intros [|fuel] ?; [lia|]. simpl.
        destruct (Z.leb_spec va end_va); [|lia].
        rewrite (wrap32_small (va + PGSIZE)) by (unfold PGSIZE in *; lia).
        apply (bind_run _ _ _ _ _ _ Hp). apply Hrun. lia.
      * by rewrite walked_app, Hpw, Hw.
      * rewrite console_app, Hpc, Hc. reflexivity.
Qed.



Lemma va_after_succ n va : va_after n (wrap32 (va + PGSIZE)) = va_after (S n) va.
Proof. unfold va_after. by rewrite Nat.iter_succ_r. Qed.

(** As long as no value of [va] exceeds [end_va] the loop is running. *)
Lemma showmappings_loop_running pgdir end_va fuel :
  forall va, (forall n, (n < fuel)%nat -> va_after n va <= end_va) ->
             showmappings_loop fuel pgdir va end_va = None.
Proof.
  induction fuel as [|fuel IH]; intros va Hva; [reflexivity|].
  cbn [showmappings_loop].
  pose proof (Hva 0%nat ltac:(lia)) as H0. cbn in H0.
  destruct (Z.leb_spec va end_va); [|lia].
  destruct (showmappings_page_run pgdir va) as (tp & Hp & _).
  apply (bind_None_r _ _ _ _ Hp). apply IH.
  intros n Hn. rewrite va_after_succ. apply Hva. lia.
Qed.

Lemma va_after_range n va : 0 <= va < 2 ^ 32 -> 0 <= va_after n va < 2 ^ 32.
Proof. destruct n; [done|]. intros _. simpl. apply wrap32_range. Qed.



(** C5.  When the token count is not 3 the handler prints the usage
    line, and when it is 3 but the parsed begin address is above the
    parsed end address it prints the rejection line; either way that
    line is the whole trace (no page is walked, nothing else printed)
    and the handler returns 0, the continue signal. *)
Theorem showmappings_rejects (fuel argc : nat) (argv : list string) (tf : Z) :
  let begin := wrap32 (strtol (argv_at argv 1)) in
  let end_va := wrap32 (strtol (argv_at argv 2)) in
  (argc <> 3%nat ->
   mon_showmappings fuel argc argv tf =
     Some (0, [Cprintf "usage: showmappings begin_va end_va\n" []]))
  /\ (argc = 3%nat -> begin > end_va ->
      mon_showmappings fuel argc argv tf =
        Some (0, [Cprintf "begin va (0x%x) is greater than end va (0x%x)\n"
                    [AInt begin; AInt end_va]])).
Proof.
  intros begin end_va. unfold mon_showmappings. split.
  - intros Hne. destruct (Nat.eqb_spec argc 3) as [|_]; [done|]. reflexivity.
  - intros -> Hgt. simpl negb. cbv iota. rewrite parse_va_args_3. simpl default.
    fold begin end_va. destruct (Z.gtb_spec begin end_va) as [_|]; [|lia].
    reflexivity.
Qed.

(** C10.  The per-page loop advances a 32-bit address by the page size
    and runs while it is [<= end].  It terminates for every
    [begin <= end] with [end < 2^32 - PGSIZE]; from [begin = 0xfffff000]
    with [end = 0xffffffff] no value the address takes exceeds [end] and
    the loop is still running after any number of steps. *)
Theorem showmappings_loop_termination :
  (forall pgdir begin end_va,
      0 <= begin <= end_va -> end_va < 2 ^ 32 - PGSIZE ->
      exists t, forall fuel,
        (Z.to_nat ((end_va - begin) / PGSIZE + 1) < fuel)%nat ->
        showmappings_loop fuel pgdir begin end_va = Some (tt, t))
  /\ (forall n, va_after n 4294963200 <= 4294967295)
  /\ (forall pgdir fuel,
        showmappings_loop fuel pgdir 4294963200 4294967295 = None).
Proof.
  split; [|split].
  - intros pgdir begin end_va [Hb Hle] Hend.
    assert (0 <= (end_va - begin) / PGSIZE)
      by (apply Z.div_pos; unfold PGSIZE; lia).
    destruct (showmappings_loop_run pgdir end_va Hend
                (Z.to_nat ((end_va - begin) / PGSIZE + 1)) begin)
      as (t & Hrun & _); [lia|lia|].
    by exists t.
  - intros n. pose proof (va_after_range n 4294963200). lia.
  - intros pgdir fuel. apply showmappings_loop_running.
    intros n _. pose proof (va_after_range n 4294963200). lia.
Qed.

(** *** More on the stack unwinder: when it returns, and when it cannot *)

(** The frame pointer after [n] saved links have been followed. *)
Definition link_after (n : nat) (ebp : Z) : Z :=
  Nat.iter n (fun e => word e 0) ebp.

Lemma link_after_succ n ebp : link_after n (word ebp 0) = link_after (S n) ebp.
Proof. unfold link_after. by rewrite Nat.iter_succ_r. Qed.

Lemma backtrace_loop_returns fuel :
  forall ebp t,
    backtrace_loop fuel ebp = Some (tt, t) ->
    exists fps, frame_chain ebp fps /\ (length fps < fuel)%nat.
Proof.
  induction fuel as [|fuel IH]; intros ebp t Hrun; [discriminate|].
  cbn [backtrace_loop] in Hrun. destruct (Z.eqb_spec ebp 0) as [->|Hne].
  - exists []. split; [constructor|simpl; lia].
  - apply bind_Some in Hrun as (ebp' & t1 & t2 & Hf & Hk & _).
    destruct (backtrace_frame_run ebp) as (t1' & Hf' & _).
    rewrite Hf' in Hf. injection Hf as <- _.
    destruct (IH _ _ Hk) as (fps & Hch & Hlen).
    exists (ebp :: fps). split; [by constructor|simpl; lia].
Qed.

Lemma backtrace_loop_stuck fuel :
  forall ebp, (forall n, (n < fuel)%nat -> link_after n ebp <> 0) ->
              backtrace_loop fuel ebp = None.
Proof.
  induction fuel as [|fuel IH]; intros ebp Hn; [reflexivity|].
  cbn [backtrace_loop].
  pose proof (Hn 0%nat ltac:(lia)) as H0. cbn in H0.
  destruct (Z.eqb_spec ebp 0) as [|_]; [done|].
  destruct (backtrace_frame_run ebp) as (t & Hf & _).
  apply (bind_None_r _ _ _ _ Hf). apply IH.
  intros n Hlt. rewrite link_after_succ. apply Hn. lia.
Qed.

(** X1.  The unwinder returns only on a zero-terminated chain: whenever
    [mon_backtrace] returns, its result is 0, the frame pointers it went
    through form a chain that ends in the zero link and is shorter than
    the fuel, and the console holds the heading followed by the lines of
    exactly these frames. *)
Theorem backtrace_returns_on_chain (fuel argc : nat) (argv : list string) (tf r : Z) (t : trace) :
  mon_backtrace fuel argc argv tf = Some (r, t) ->
  r = 0
  /\ exists fps,
      frame_chain (wrap32 read_ebp) fps
      /\ (length fps < fuel)%nat
      /\ console t =
           ("Stack backtrace:\n", [])
           :: flat_map (fun fp => frame_line fp ++ symbol_line (word fp 1)) fps
      /\ frame_line_count t = length fps.
Proof.
  unfold mon_backtrace. intros Hrun.
  apply bind_Some in Hrun as ([] & t0 & t1 & Hhead & Hrun & ->).
  apply bind_Some in Hrun as ([] & t2 & t3 & Hloop & Hret & ->).
  injection Hhead as <-. injection Hret as <- <-. split; [done|].
  destruct (backtrace_loop_returns _ _ _ Hloop) as (fps & Hch & Hlen).
  destruct (backtrace_loop_chain _ _ Hch) as (t' & Hrun' & Hcon & _).
  rewrite (Hrun' fuel Hlen) in Hloop. injection Hloop as <-.
  exists fps. split; [done|]. split; [done|].
  rewrite app_nil_r. split.
  - simpl. by rewrite Hcon.
  - unfold frame_line_count. simpl. rewrite Hcon.
    rewrite filter_cons_False by (simpl; congruence).
    apply frame_line_count_chain.
Qed.

(** X2.  No cycle detection: when the saved links followed from the
    current frame pointer never read as zero (a frame chain that loops
    back on itself, for one), [mon_backtrace] is still running after any
    number of steps. *)
Theorem backtrace_never_returns (argc : nat) (argv : list string) (tf : Z) :
  (forall n, link_after n (wrap32 read_ebp) <> 0) ->
  forall fuel, mon_backtrace fuel argc argv tf = None.
Proof.
  intros Hn fuel. unfold mon_backtrace.
  apply (bind_None_r _ _ tt [Cprintf "Stack backtrace:\n" []]); [reflexivity|].
  apply bind_None_l. apply backtrace_loop_stuck. intros n _. apply Hn.
Qed.

(** *** More on the mapping inspector *)

(** The calls of the page-table walker in a trace. *)
Definition walk_calls (t : trace) : list (Z * Z * Z) :=
  omap (fun e => match e with PgdirWalk p va c => Some (p, va, c) | _ => None end) t.

Lemma walk_calls_app t1 t2 : walk_calls (t1 ++ t2) = walk_calls t1 ++ walk_calls t2.
Proof. apply omap_app. Qed.

(** The loop runs through [page_steps] as soon as the last address
    congruent to [va] modulo the page size lies above [end_va]: up to
    there no increment wraps. *)
Lemma showmappings_loop_steps pgdir end_va :
  forall (n : nat) va,
    0 <= va -> end_va < 2 ^ 32 - PGSIZE + va mod PGSIZE ->
    (end_va - va) / PGSIZE + 1 <= Z.of_nat n ->
    exists t,
      (forall fuel, (n < fuel)%nat ->
         showmappings_loop fuel pgdir va end_va = Some (tt, t))
      /\ walked t = page_steps va end_va
      /\ console t = flat_map (page_report pgdir) (page_steps va end_va).
Proof.
  induction n as [|n IH]; intros va Hva Hend Hn.
  - assert (end_va < va) as Hlt.
    { destruct (Z_lt_le_dec end_va va) as [|Hle]; [done|].
      assert (0 <= (end_va - va) / PGSIZE) by (apply Z.div_pos; unfold PGSIZE; lia).
      lia. }
    exists []. rewrite page_steps_nil by done. split; [|done].
    intros [|fuel] ?; [lia|]. simpl.
    destruct (Z.leb_spec va end_va); [lia|done].
  - destruct (Z_lt_le_dec end_va va) as [Hlt|Hle].
    + exists []. rewrite page_steps_nil by done. split; [|done].
      intros [|fuel] ?; [lia|]. simpl.
      destruct (Z.leb_spec va end_va); [lia|done].
    + destruct (showmappings_page_run pgdir va) as (tp & Hp & Hpw & Hpc).
      assert ((va + PGSIZE) mod PGSIZE = va mod PGSIZE) as Hmod.
      { rewrite <- (Z.mul_1_l PGSIZE) at 1. apply Z.mod_add. unfold PGSIZE. lia. }
      assert (va + PGSIZE < 2 ^ 32) as Hnowrap.
      { pose proof (Z.div_mod va PGSIZE ltac:(unfold PGSIZE; lia)) as Hdm.
        pose proof (Z.mod_pos_bound va PGSIZE ltac:(unfold PGSIZE; lia)).
        unfold PGSIZE in *. lia. }
      destruct (IH (va + PGSIZE)) as (t & Hrun & Hw & Hc);
        [unfold PGSIZE; lia|rewrite Hmod; lia| |].
      { replace (end_va - (va + PGSIZE)) with (end_va - va + (-1) * PGSIZE) by lia.
        rewrite Z.div_add by (unfold PGSIZE; lia). lia. }
      exists (tp ++ t). rewrite page_steps_cons by done. split; [|split].
      * intros [|fuel] ?; [lia|]. simpl.
        destruct (Z.leb_spec va end_va); [|lia].
        rewrite (wrap32_small (va + PGSIZE)) by (unfold PGSIZE in *; lia).
        apply (bind_run _ _ _ _ _ _ Hp). apply Hrun. lia.
      * by rewrite walked_app, Hpw, Hw.
      * rewrite console_app, Hpc, Hc. reflexivity.
Qed.

(** At or above that address every value of [va] stays below [end_va]. *)
Lemma va_after_congruent n va :
  0 <= va < 2 ^ 32 ->
  0 <= va_after n va < 2 ^ 32 /\ va_after n va mod PGSIZE = va mod PGSIZE.
Proof.
  intros Hva. induction n as [|n [IHr IHm]]; [done|].
  change (va_after (S n) va) with (wrap32 (va_after n va + PGSIZE)).
  split; [apply wrap32_range|]. unfold wrap32.
  rewrite Z.mod_mod_divide by (by exists 1048576).
  rewrite <- IHm.
  replace (va_after n va + PGSIZE) with (va_after n va + 1 * PGSIZE) by lia.
  apply Z.mod_add. unfold PGSIZE. lia.
Qed.

Lemma showmappings_loop_mono pgdir end_va fuel :
  forall va t fuel',
    showmappings_loop fuel pgdir va end_va = Some (tt, t) ->
    (fuel <= fuel')%nat ->
    showmappings_loop fuel' pgdir va end_va = Some (tt, t).
Proof.
  induction fuel as [|fuel IH]; intros va t fuel' Hrun Hle; [discriminate|].
  destruct fuel' as [|fuel']; [lia|]. cbn [showmappings_loop] in *.
  destruct (va <=? end_va); [|done].
  apply bind_Some in Hrun as ([] & t1 & t2 & Hp & Hk & ->).
  apply (bind_run _ _ _ _ _ _ Hp). apply IH; [done|lia].
Qed.

Lemma showmappings_page_calls pgdir va :
  exists t, showmappings_page pgdir va = Some (tt, t)
            /\ walk_calls t = [(pgdir, va, 0)]
            /\ walked t = [va]
            /\ Forall (fun b => b <> 0 /\ b = pgdir_walk pgdir va 0) (deref_bases t).
Proof.
  unfold showmappings_page.
  destruct (Z.eqb_spec (pgdir_walk pgdir va 0) 0) as [Hz|Hnz]; simpl.
  - eexists; split; [reflexivity|]. repeat split; constructor.
  - destruct (Z.land (word (pgdir_walk pgdir va 0) 0) PTE_P =? 0);
      eexists; (split; [reflexivity|]); repeat split; by repeat constructor.
Qed.

Lemma showmappings_loop_calls pgdir end_va fuel :
  forall va t,
    showmappings_loop fuel pgdir va end_va = Some (tt, t) ->
    Forall (fun c => c.1.1 = pgdir /\ c.2 = 0) (walk_calls t)
    /\ Forall (fun b => b <> 0 /\ exists va', va' ∈ walked t /\ b = pgdir_walk pgdir va' 0)
         (deref_bases t).
Proof.
  induction fuel as [|fuel IH]; intros va t Hrun; [discriminate|].
  cbn [showmappings_loop] in Hrun. destruct (va <=? end_va).
  - apply bind_Some in Hrun as ([] & t1 & t2 & Hp & Hk & ->).
    destruct (showmappings_page_calls pgdir va) as (t1' & Hp' & Hc & Hw & Hd).
    rewrite Hp' in Hp. injection Hp as <-.
    destruct (IH _ _ Hk) as [IHc IHd].
    rewrite walk_calls_app, deref_bases_app, walked_app, Hc, Hw. split.
    + constructor; [done|exact IHc].
    + apply Forall_app. split.
      * eapply Forall_impl; [exact Hd|]. intros b [Hb ->]. split; [done|].
        exists va. split; [apply list_elem_of_here|done].
      * eapply Forall_impl; [exact IHd|]. intros b (Hb & va' & Hin & ->).
        split; [done|]. exists va'. split; [by apply list_elem_of_further|done].
  - injection Hrun as <-. split; constructor.
Qed.










(** X3.  Exactly when the inspector returns.  With two addresses
    [begin <= end], [mon_showmappings] returns if and only if [end] lies
    below the last 32-bit address that is a whole number of pages from
    [begin]; then the addresses it walks are [begin], [begin + PGSIZE],
    ... up to [end].  Otherwise the address wraps around to the bottom
    of memory and the loop is still running after any number of steps. *)
Theorem showmappings_returns_iff (argv : list string) (tf : Z) :
  let begin := wrap32 (strtol (argv_at argv 1)) in
  let end_va := wrap32 (strtol (argv_at argv 2)) in
  begin <= end_va ->
  ((exists fuel r t, mon_showmappings fuel 3 argv tf = Some (r, t))
   <-> end_va < 2 ^ 32 - PGSIZE + begin mod PGSIZE)
  /\ (forall fuel r t,
        mon_showmappings fuel 3 argv tf = Some (r, t) ->
        r = 0 /\ walked t = page_steps begin end_va)
  /\ (2 ^ 32 - PGSIZE + begin mod PGSIZE <= end_va ->
      forall fuel, mon_showmappings fuel 3 argv tf = None).
Proof.
  intros begin end_va Hle.
  assert (0 <= begin < 2 ^ 32) as Hb by apply wrap32_range.
  assert (forall fuel,
            mon_showmappings fuel 3 argv tf
            = (showmappings_loop fuel (KADDR (wrap32 rcr3)) begin end_va ;; ret 0))
    as Hunfold.
  { intros fuel. unfold mon_showmappings. simpl negb. cbv iota.
    rewrite parse_va_args_3. simpl default. fold begin end_va.
    by destruct (Z.gtb_spec begin end_va) as [|_]; [lia|]. }
  assert (2 ^ 32 - PGSIZE + begin mod PGSIZE <= end_va ->
          forall fuel, mon_showmappings fuel 3 argv tf = None) as Hhang.
  { intros Htop fuel. rewrite Hunfold. apply bind_None_l.
    apply showmappings_loop_running. intros n _.
    destruct (va_after_congruent n begin Hb) as [Hr Hm].
    pose proof (Z.div_mod (va_after n begin) PGSIZE ltac:(unfold PGSIZE; lia)) as Hdm.
    rewrite Hm in Hdm. unfold PGSIZE in *.
    pose proof (Z.mod_pos_bound begin 4096 ltac:(lia)) as Hrem.
    assert (forall x q r e : Z,
               0 <= x < 2 ^ 32 -> x = 4096 * q + r -> 0 <= r < 4096 ->
               2 ^ 32 - 4096 + r <= e -> x <= e) as Haux by (clear; intros; lia).
    exact (Haux _ _ _ _ Hr Hdm Hrem Htop). }
  assert (end_va < 2 ^ 32 - PGSIZE + begin mod PGSIZE ->
          exists t, (forall fuel,
                       (Z.to_nat ((end_va - begin) / PGSIZE + 1) < fuel)%nat ->
                       showmappings_loop fuel (KADDR (wrap32 rcr3)) begin end_va
                       = Some (tt, t))
                    /\ walked t = page_steps begin end_va) as Hsteps.
  { intros Hend.
    assert (0 <= (end_va - begin) / PGSIZE)
      by (apply Z.div_pos; unfold PGSIZE; lia).
    destruct (showmappings_loop_steps (KADDR (wrap32 rcr3)) end_va
                (Z.to_nat ((end_va - begin) / PGSIZE + 1)) begin)
      as (t & Hrun & Hw & _); [lia|done|lia|]. eauto. }
  split; [|split; [|exact Hhang]].
  - split.
    + intros (fuel & r & t & Hrun).
      destruct (Z_lt_le_dec end_va (2 ^ 32 - PGSIZE + begin mod PGSIZE)) as [|Htop];
        [done|]. rewrite (Hhang Htop) in Hrun. discriminate.
    + intros (t & Hrun & _)%Hsteps.
      exists (S (Z.to_nat ((end_va - begin) / PGSIZE + 1))), 0, (t ++ []).
      rewrite Hunfold. apply (bind_run _ _ tt t 0 []); [apply Hrun; lia|done].
  - intros fuel r t Hrun.
    destruct (Z_lt_le_dec end_va (2 ^ 32 - PGSIZE + begin mod PGSIZE)) as [Hend|Htop].
    2:{ rewrite (Hhang Htop) in Hrun. discriminate. }
    rewrite Hunfold in Hrun.
    apply bind_Some in Hrun as ([] & t1 & t2 & Hloop & Hret & ->).
    injection Hret as <- <-. split; [done|]. rewrite app_nil_r.
    destruct (Hsteps Hend) as (t' & Hrun' & Hw).
    pose proof (showmappings_loop_mono _ _ _ _ _
                  (fuel + S (Z.to_nat ((end_va - begin) / PGSIZE + 1)))%nat
                  Hloop ltac:(lia)) as Hbig.
    rewrite Hrun' in Hbig by lia. injection Hbig as <-. exact Hw.
Qed.

(** X4.  The inspection is read-only and never goes through a null
    pointer: in every run of [mon_showmappings] that returns, each call
    of the page-table walker is made on the current page directory with
    the create flag 0, and each pointer dereferenced is a non-null
    entry pointer that the walker returned for an address walked. *)
Theorem showmappings_read_only (fuel argc : nat) (argv : list string) (tf r : Z) (t : trace) :
  mon_showmappings fuel argc argv tf = Some (r, t) ->
  r = 0
  /\ Forall (fun c => c.1.1 = KADDR (wrap32 rcr3) /\ c.2 = 0) (walk_calls t)
  /\ Forall (fun b => b <> 0 /\ exists va, va ∈ walked t
                                  /\ b = pgdir_walk (KADDR (wrap32 rcr3)) va 0)
       (deref_bases t).
Proof.
  unfold mon_showmappings. intros Hrun.
  destruct (negb _).
  { injection Hrun as <- <-. split; [done|]. split; constructor. }
  destruct (_ >? _).
  { injection Hrun as <- <-. split; [done|]. split; constructor. }
  apply bind_Some in Hrun as ([] & t1 & t2 & Hloop & Hret & ->).
  injection Hret as <- <-. split; [done|]. rewrite app_nil_r.
  by apply showmappings_loop_calls in Hloop.
Qed.


(** *** The kernel information command *)

(** X12.  [mon_kerninfo] returns 0 after seven lines, the last of which
    gives the size of the kernel image, [end - entry], in kilobytes
    rounded up: for a size below [2^31 - 1024] the number printed is the
    least [k] with [size <= 1024 * k]. *)
Theorem kerninfo_footprint (fuel argc : nat) (argv : list string) (tf : Z) :
  0 <= sym_end - sym_entry < 2 ^ 31 - 1024 ->
  let k := (sym_end - sym_entry + 1023) / 1024 in
  exists t,
    mon_kerninfo fuel argc argv tf = Some (0, t)
    /\ length (console t) = 7%nat
    /\ last (console t)
       = Some ("Kernel executable memory footprint: %dKB\n", [AInt k])
    /\ 1024 * (k - 1) < sym_end - sym_entry <= 1024 * k.
Proof.
  intros Hsize k. eexists. split; [reflexivity|]. split; [reflexivity|]. split.
  - cbn [console omap last app mbind option_bind]. simpl. do 3 f_equal.
    unfold ROUNDUP. rewrite wrap32_small by lia.
    replace (sym_end - sym_entry + 1024 - 1) with (sym_end - sym_entry + 1023) by lia.
    f_equal. apply Z.div_mul. lia.
  - unfold k. pose proof (Z.div_mod (sym_end - sym_entry + 1023) 1024 ltac:(lia)).
    pose proof (Z.mod_pos_bound (sym_end - sym_entry + 1023) 1024 ltac:(lia)). lia.
Qed.

End Monitor.

(** ** The command interpreter *)

(** *** The line buffer

    The buffer handed to [runcmd] holds the characters of the line and
    then a terminating NUL.  It is modelled by the list of the
    characters of the line; the terminator is what [peek] reads at the
    offset just past them.  A [char *] into the buffer is an offset. *)

Definition peek (b : list ascii) (i : nat) : ascii := default zero (b !! i).

(** Modelled from the spec: [strchr] is defined in [lib/string.c], which
    is not part of the sources at hand.  The tokenizer only tests its
    result against the null pointer: it is non-null exactly when the
    character occurs in the string. *)
Fixpoint strchr (s : string) (c : ascii) : bool :=
  match s with
  | EmptyString => false
  | String a s' => if Ascii.eqb a c then true else strchr s' c
  end.

(** Modelled from the spec: [strcmp] is defined in [lib/string.c] too.
    It walks both strings while they agree and returns the difference
    of the first two bytes that differ (the end of a string reading as
    0), so that it is 0 on an exact match. *)
Fixpoint strcmp (p q : string) : Z :=
  match p, q with
  | EmptyString, EmptyString => 0
  | EmptyString, String b _ => - Z.of_N (N_of_ascii b)
  | String a _, EmptyString => Z.of_N (N_of_ascii a)
  | String a p', String b q' =>
      if Ascii.eqb a b then strcmp p' q'
      else Z.of_N (N_of_ascii a) - Z.of_N (N_of_ascii b)
  end.

(** The C string that starts at an offset of the buffer: the characters
    up to the next NUL. *)
Fixpoint cstr_of (l : list ascii) : string :=
  match l with
  | [] => EmptyString
  | c :: l' => if Ascii.eqb c zero then EmptyString else String c (cstr_of l')
  end.

Definition cstr (b : list ascii) (p : nat) : string := cstr_of (drop p b).

(** [while ( *buf && strchr(WHITESPACE, *buf)) *buf++ = 0;]
    The count [n] bounds the number of characters left in the buffer. *)
Fixpoint gobble (n : nat) (b : list ascii) (i : nat) : list ascii * nat :=
  match n with
  | O => (b, i)
  | S n' =>
      if negb (Ascii.eqb (peek b i) zero) && strchr WHITESPACE (peek b i)
      then gobble n' (<[i := zero]> b) (S i)
      else (b, i)
  end.

(** [while ( *buf && !strchr(WHITESPACE, *buf)) buf++;] *)
Fixpoint scan_arg (n : nat) (b : list ascii) (i : nat) : nat :=
  match n with
  | O => i
  | S n' =>
      if negb (Ascii.eqb (peek b i) zero) && negb (strchr WHITESPACE (peek b i))
      then scan_arg n' b (S i)
      else i
  end.

(** How the parsing loop of [runcmd] is left: by [break], with the
    buffer, [argc] and [argv] of that moment, or by [return 0] after the
    report of too many arguments, with the same. *)
Inductive parsed : Type :=
| Args (b : list ascii) (argc : nat) (argv : list (option nat))
| TooMany (b : list ascii) (argc : nat) (argv : list (option nat)).

(** The [while (1)] loop that parses the buffer.  [argv] is the array of
    [MAXARGS] pointers, a null pointer being [None]. *)
Fixpoint parse_loop (n : nat) (b : list ascii) (i : nat)
    (argc : nat) (argv : list (option nat)) : M parsed :=
  match n with
  | O => None
  | S n' =>
      let '(b1, i1) := gobble (length b) b i in
      if Ascii.eqb (peek b1 i1) zero then ret (Args b1 argc argv)
      else if (argc =? MAXARGS - 1)%nat then
        cprintf "Too many arguments (max %d)\n" [AInt (Z.of_nat MAXARGS)] ;;
        ret (TooMany b1 argc argv)
      else
        parse_loop n' b1 (scan_arg (length b1) b1 i1)
          (S argc) (<[argc := Some i1]> argv)
  end.

(** The strings the handlers see through [argv[0 .. argc-1]]. *)
Definition argv_strings (b : list ascii) (argc : nat) (argv : list (option nat)) : list string :=
  (fun slot => match slot with Some p => cstr b p | None => EmptyString end)
    <$> take argc argv.

(** *** The tokens of a line, as the specification words them *)

Definition is_white (c : ascii) : bool := strchr WHITESPACE c.

(** A token starts where a character that is not whitespace stands at
    the beginning of the line or right after a whitespace character. *)
Definition starts_token (s : list ascii) (i : nat) : bool :=
  negb (is_white (peek s i))
  && ((i =? 0)%nat || is_white (peek s (i - 1))).

(** The leading run of characters that are not whitespace. *)
Fixpoint run_of (l : list ascii) : list ascii :=
  match l with
  | [] => []
  | c :: l' => if is_white c then [] else c :: run_of l'
  end.

(** The offsets at which the maximal runs of non-whitespace start, in
    order, and the runs themselves. *)
Definition starts_upto (s : list ascii) (i : nat) : list nat :=
  filter (fun j => starts_token s j = true) (seq 0 i).

Definition token_starts (s : list ascii) : list nat := starts_upto s (length s).

Definition token_at (s : list ascii) (p : nat) : list ascii := run_of (drop p s).

Definition tokens_of (s : list ascii) : list (list ascii) :=
  token_at s <$> token_starts s.

(** A line, as a C string, holds no NUL before its terminator. *)
Definition nul_free (s : list ascii) : Prop := Forall (fun c => c <> zero) s.

(** A whitespace character, neutralized. *)
Definition blank (c : ascii) : ascii := if is_white c then zero else c.

(** The buffer of line [s] once the whitespace before offset [m] has
    been zeroed. *)
Definition zeroed (m : nat) (s : list ascii) : list ascii :=
  (blank <$> take m s) ++ drop m s.

(** The array [argv] that holds the pointers [ptrs] in its first slots. *)
Definition argv_of (ptrs : list nat) : list (option nat) :=
  (Some <$> ptrs) ++ replicate (MAXARGS - length ptrs) None.

(** The way the parsing loop is left on line [s]. *)
Definition parse_outcome (s : list ascii) : M parsed :=
  if decide (length (token_starts s) <= 15)%nat then
    Some (Args (blank <$> s) (length (token_starts s)) (argv_of (token_starts s)), [])
  else
    Some (TooMany (zeroed (default 0%nat (token_starts s !! 15%nat)) s) 15
            (argv_of (take 15 (token_starts s))),
          [Cprintf "Too many arguments (max %d)\n" [AInt 16]]).

(** The reading of "the tokenizer produces exactly the maximal runs of
    non-whitespace characters, zeroing each whitespace character": the
    parsing loop is left by [break], the strings behind [argv] are the
    runs, and the buffer is the line with its whitespace zeroed. *)
Definition tokenizes (s : list ascii) : Prop :=
  exists b argc argv,
    parse_loop (S (length s)) s 0 0 (<[0%nat := None]> (replicate MAXARGS None))
      = Some (Args b argc argv, [])
    /\ argv_strings b argc argv = String.string_of_list_ascii <$> tokens_of s
    /\ b = blank <$> s.

(** A string of the monitor holds no NUL either. *)
Fixpoint no_nul (s : string) : Prop :=
  match s with
  | EmptyString => True
  | String c s' => c <> zero /\ no_nul s'
  end.

(** *** [strcmp] is 0 on equal strings, and only there *)

Lemma N_of_ascii_zero c : Z.of_N (N_of_ascii c) = 0 -> c = zero.
Proof.
  intros Hc. rewrite <- (ascii_N_embedding c).
  assert (N_of_ascii c = 0%N) as -> by lia. reflexivity.
Qed.

Lemma strcmp_refl p : strcmp p p = 0.
Proof. induction p as [|a p IH]; [done|]. simpl. by rewrite Ascii.eqb_refl. Qed.

Lemma strcmp_eq p : forall q, no_nul p -> no_nul q -> strcmp p q = 0 -> p = q.
Proof.
  induction p as [|a p IH]; intros [|b q] Hp Hq Hcmp; simpl in *.
  - done.
  - destruct Hq as [Hb _]. destruct Hb. apply N_of_ascii_zero. lia.
  - destruct Hp as [Ha _]. destruct Ha. by apply N_of_ascii_zero.
  - destruct (Ascii.eqb_spec a b) as [->|Hne].
    + f_equal. apply IH; [apply Hp|apply Hq|done].
    + destruct Hne. rewrite <- (ascii_N_embedding a), <- (ascii_N_embedding b).
      f_equal. lia.
Qed.

(** *** Facts about the buffer *)

Lemma peek_ge (s : list ascii) i : (length s <= i)%nat -> peek s i = zero.
Proof. intros Hle. unfold peek. by rewrite lookup_ge_None_2. Qed.

Lemma peek_lookup (s : list ascii) i c : s !! i = Some c -> peek s i = c.
Proof. unfold peek. by intros ->. Qed.

Lemma peek_nonzero (s : list ascii) i :
  nul_free s -> (i < length s)%nat -> peek s i <> zero.
Proof.
  intros Hs Hi. destruct (lookup_lt_is_Some_2 s i Hi) as [c Hc].
  rewrite (peek_lookup _ _ _ Hc). exact (Forall_lookup_1 _ _ _ _ Hs Hc).
Qed.

Lemma is_white_peek_lt (s : list ascii) i :
  is_white (peek s i) = true -> (i < length s)%nat.
Proof.
  intros Hw. destruct (Nat.lt_ge_cases i (length s)) as [|Hge]; [done|].
  rewrite (peek_ge _ _ Hge) in Hw. discriminate.
Qed.

Lemma length_zeroed m (s : list ascii) : length (zeroed m s) = length s.
Proof.
  unfold zeroed. rewrite length_app, length_fmap, <- length_app.
  by rewrite take_drop.
Qed.

Lemma peek_zeroed_ge m (s : list ascii) i : (m <= i)%nat -> peek (zeroed m s) i = peek s i.
Proof.
  intros Hle. unfold peek, zeroed.
  destruct (Nat.le_gt_cases (length s) m) as [Hlen|Hlen].
  - rewrite drop_ge, app_nil_r by done.
    rewrite !lookup_ge_None_2; [done|lia|].
    rewrite length_fmap, length_take. lia.
  - rewrite lookup_app_r; rewrite length_fmap, length_take; [|lia].
    rewrite lookup_drop. f_equal. f_equal. lia.
Qed.

Lemma zeroed_all (s : list ascii) : zeroed (length s) s = blank <$> s.
Proof. unfold zeroed. by rewrite firstn_all, drop_all, app_nil_r. Qed.

Lemma zeroed_S m (s : list ascii) :
  zeroed (S m) s = <[m := blank (peek s m)]> (zeroed m s).
Proof.
  unfold zeroed. destruct (s !! m) as [c|] eqn:Hc.
  - rewrite (take_S_r _ _ _ Hc), fmap_app, <- app_assoc. simpl.
    rewrite (peek_lookup _ _ _ Hc).
    assert (length (blank <$> take m s) = m) as Hlen.
    { rewrite length_fmap, length_take. apply lookup_lt_Some in Hc. lia. }
    rewrite <- (Nat.add_0_r m) at 3. rewrite <- Hlen at 3.
    rewrite insert_app_r. f_equal.
    rewrite (drop_S _ _ _ Hc). reflexivity.
  - apply lookup_ge_None_1 in Hc.
    rewrite !take_ge, !drop_ge, !app_nil_r by lia.
    rewrite list_insert_ge; [done|]. rewrite length_fmap. lia.
Qed.

Lemma zeroed_S_white m (s : list ascii) :
  is_white (peek s m) = true -> <[m := zero]> (zeroed m s) = zeroed (S m) s.
Proof. intros Hw. rewrite zeroed_S. unfold blank. by rewrite Hw. Qed.

Lemma zeroed_S_other m (s : list ascii) :
  is_white (peek s m) = false -> zeroed (S m) s = zeroed m s.
Proof.
  intros Hw. rewrite zeroed_S. unfold blank. rewrite Hw.
  apply list_insert_id'. intros Hlt.
  destruct (lookup_lt_is_Some_2 _ _ Hlt) as [c Hc]. rewrite Hc. f_equal.
  rewrite <- (peek_zeroed_ge m s m) by lia. symmetry. by apply peek_lookup.
Qed.

Lemma is_white_nonzero c : is_white c = true -> Ascii.eqb c zero = false.
Proof.
  intros Hw. destruct (Ascii.eqb_spec c zero) as [->|]; [discriminate|done].
Qed.

Lemma zeroed_skip (s : list ascii) d :
  forall i, (forall j, (i <= j < i + d)%nat -> is_white (peek s j) = false) ->
            zeroed (i + d) s = zeroed i s.
Proof.
  induction d as [|d IH]; intros i Hj; [by rewrite Nat.add_0_r|].
  replace (i + S d)%nat with (S i + d)%nat by lia.
  rewrite IH by (intros; apply Hj; lia).
  apply zeroed_S_other, Hj. lia.
Qed.

(** *** The two inner loops *)

Lemma gobble_spec (s : list ascii) n :
  forall i, (length s - i <= n)%nat ->
    exists i', gobble n (zeroed i s) i = (zeroed i' s, i')
               /\ (i <= i')%nat
               /\ (forall j, (i <= j < i')%nat -> is_white (peek s j) = true)
               /\ is_white (peek s i') = false.
Proof.
  induction n as [|n IH]; intros i Hn.
  - exists i. split; [done|]. split; [done|]. split; [intros; lia|].
    rewrite peek_ge by lia. done.
  - cbn [gobble]. rewrite peek_zeroed_ge by done.
    change (strchr WHITESPACE (peek s i)) with (is_white (peek s i)).
    destruct (is_white (peek s i)) eqn:Hw.
    + rewrite (is_white_nonzero _ Hw). cbn [negb andb].
      rewrite zeroed_S_white by done.
      destruct (IH (S i)) as (i' & Hg & Hle & Hws & Hend); [lia|].
      exists i'. split; [done|]. split; [lia|]. split; [|done].
      intros j Hj. destruct (decide (j = i)) as [->|]; [done|apply Hws; lia].
    + rewrite andb_false_r.
      exists i. split; [done|]. split; [done|]. split; [intros; lia|done].
Qed.

Lemma scan_arg_spec (s : list ascii) m n :
  nul_free s ->
  forall i, (m <= i)%nat -> (length s - i <= n)%nat ->
    let i' := scan_arg n (zeroed m s) i in
    (i <= i')%nat
    /\ (forall j, (i <= j < i')%nat ->
                  is_white (peek s j) = false /\ (j < length s)%nat)
    /\ (is_white (peek s i') = true \/ (length s <= i')%nat).
Proof.
  intros Hs. induction n as [|n IH]; intros i Hm Hn; cbn [scan_arg].
  - split; [done|]. split; [intros; lia|]. right. lia.
  - rewrite peek_zeroed_ge by done.
    change (strchr WHITESPACE (peek s i)) with (is_white (peek s i)).
    destruct (Nat.lt_ge_cases i (length s)) as [Hlt|Hge].
    + pose proof (peek_nonzero s i Hs Hlt) as Hnz.
      destruct (Ascii.eqb_spec (peek s i) zero) as [|_]; [done|]. cbn [negb andb].
      destruct (is_white (peek s i)) eqn:Hw; cbn [negb].
      * split; [done|]. split; [intros; lia|]. by left.
      * destruct (IH (S i)) as (Hle & Hrun & Hend); [lia|lia|].
        split; [lia|]. split; [|done].
        intros j Hj. destruct (decide (j = i)) as [->|]; [done|apply Hrun; lia].
    + rewrite peek_ge by done. cbn.
      split; [done|]. split; [intros; lia|]. by right.
Qed.

(** *** Where tokens start *)

Lemma starts_upto_S (s : list ascii) i :
  starts_upto s (S i) =
    starts_upto s i ++ (if starts_token s i then [i] else []).
Proof.
  unfold starts_upto. rewrite seq_S, filter_app. f_equal. simpl.
  destruct (starts_token s i) eqn:Hst.
  - by rewrite filter_cons_True.
  - rewrite filter_cons_False; [done|]. by rewrite Hst.
Qed.

Lemma starts_upto_skip (s : list ascii) d :
  forall i, (forall j, (i <= j < i + d)%nat -> starts_token s j = false) ->
            starts_upto s (i + d) = starts_upto s i.
Proof.
  induction d as [|d IH]; intros i Hj; [by rewrite Nat.add_0_r|].
  replace (i + S d)%nat with (S (i + d)) by lia.
  rewrite starts_upto_S, Hj, app_nil_r by lia.
  apply IH. intros. apply Hj. lia.
Qed.

Lemma starts_upto_prefix (s : list ascii) i n :
  (i <= n)%nat -> exists rest, starts_upto s n = starts_upto s i ++ rest.
Proof.
  intros Hle. unfold starts_upto.
  replace n with (i + (n - i))%nat by lia.
  rewrite seq_app, filter_app. eauto.
Qed.

Lemma starts_token_white (s : list ascii) j :
  is_white (peek s j) = true -> starts_token s j = false.
Proof. intros Hw. unfold starts_token. by rewrite Hw. Qed.

Lemma starts_token_inside (s : list ascii) j :
  (0 < j)%nat -> is_white (peek s (j - 1)) = false -> starts_token s j = false.
Proof.
  intros Hj Hw. unfold starts_token. rewrite Hw.
  destruct (Nat.eqb_spec j 0) as [|_]; [lia|]. apply andb_false_r.
Qed.

Lemma argv_of_snoc (ptrs : list nat) p :
  (length ptrs < MAXARGS)%nat ->
  <[length ptrs := Some p]> (argv_of ptrs) = argv_of (ptrs ++ [p]).
Proof.
  intros Hlt. unfold argv_of.
  rewrite <- (Nat.add_0_r (length ptrs)) at 1.
  rewrite <- (length_fmap Some ptrs) at 1. rewrite insert_app_r.
  rewrite fmap_app, <- app_assoc, length_app. simpl. f_equal.
  replace (MAXARGS - length ptrs)%nat with (S (MAXARGS - (length ptrs + 1))) by lia.
  reflexivity.
Qed.

(** *** The parsing loop *)

Lemma parse_loop_spec (s : list ascii) :
  nul_free s ->
  forall n i,
    (i <= length s)%nat ->
    (i = 0%nat \/ is_white (peek s i) = true \/ i = length s) ->
    (length s - i < n)%nat ->
    (length (starts_upto s i) <= 15)%nat ->
    parse_loop n (zeroed i s) i (length (starts_upto s i)) (argv_of (starts_upto s i))
    = parse_outcome s.
Proof.
  intros Hs. induction n as [|n IH]; intros i Hi Hb Hn Hk; [lia|].
  cbn [parse_loop]. rewrite length_zeroed.
  destruct (gobble_spec s (length s) i) as (i' & -> & Hle & Hws & Hend); [lia|].
  rewrite peek_zeroed_ge by done.
  assert (i' <= length s)%nat as Hi'.
  { destruct (decide (i' = i)) as [->|]; [done|].
    assert (i <= i' - 1 < i')%nat as Hin by lia.
    pose proof (is_white_peek_lt s (i' - 1) (Hws _ Hin)). lia. }
  assert (starts_upto s i' = starts_upto s i) as Hskip.
  { replace i' with (i + (i' - i))%nat by lia. apply starts_upto_skip.
    intros j Hj. apply starts_token_white, Hws. lia. }
  destruct (decide (i' = length s)) as [->|Hne].
  - rewrite peek_ge by done. cbn.
    unfold parse_outcome, token_starts. rewrite Hskip.
    destruct (decide _) as [_|]; [|lia]. by rewrite zeroed_all.
  - pose proof (peek_nonzero s i' Hs ltac:(lia)) as Hnz.
    destruct (Ascii.eqb_spec (peek s i') zero) as [|_]; [done|].
    assert (starts_token s i' = true) as Hst.
    { unfold starts_token. rewrite Hend. cbn [negb andb].
      destruct (decide (i' = i)) as [->|].
      - destruct Hb as [-> | [Hw | ->]]; [done|congruence|done].
      - rewrite (Hws (i' - 1)%nat) by lia. apply orb_true_r. }
    destruct (starts_upto_prefix s (S i') (length s)) as [rest Hrest]; [lia|].
    rewrite starts_upto_S, Hst, Hskip in Hrest.
    destruct (Nat.eqb_spec (length (starts_upto s i)) (MAXARGS - 1)) as [Hfull|Hroom].
    + cbn. unfold parse_outcome, token_starts. rewrite Hrest.
      change (MAXARGS - 1)%nat with 15%nat in Hfull.
      destruct (decide _) as [Hbad|_].
      { rewrite !length_app in Hbad. simpl in Hbad. lia. }
      rewrite <- app_assoc.
      rewrite lookup_app_r, take_app_length' by lia.
      rewrite Hfull, Nat.sub_diag. reflexivity.
    + change (MAXARGS - 1)%nat with 15%nat in Hroom.
      pose proof (scan_arg_spec s i' (length s) Hs i' (Nat.le_refl _) ltac:(lia))
        as (Hle' & Hrun & Hstop).
      rewrite length_zeroed.
      set (i'' := scan_arg (length s) (zeroed i' s) i') in *. clearbody i''.
      assert (i' < i'')%nat as Hadv.
      { destruct (decide (i'' = i')) as [Heq|]; [|lia].
        rewrite Heq in Hstop. destruct Hstop; [congruence|lia]. }
      assert (i'' <= length s)%nat as Hi''.
      { pose proof (Hrun (i'' - 1)%nat ltac:(lia)). lia. }
      assert (starts_upto s i'' = starts_upto s i ++ [i']) as Hup.
      { replace i'' with (S i' + (i'' - S i'))%nat by lia.
        rewrite starts_upto_skip.
        - by rewrite starts_upto_S, Hst, Hskip.
        - intros j Hj. apply starts_token_inside; [lia|]. apply Hrun. lia. }
      rewrite argv_of_snoc by (unfold MAXARGS; lia).
      replace (S (length (starts_upto s i)))
        with (length (starts_upto s i ++ [i'])) by (rewrite length_app; simpl; lia).
      rewrite <- Hup.
      replace (zeroed i' s) with (zeroed i'' s).
      2:{ replace i'' with (i' + (i'' - i'))%nat by lia. apply zeroed_skip.
          intros j Hj. apply Hrun. lia. }
      apply IH; [done| |lia|].
      * destruct Hstop as [?|?]; [by right; left|right; right; lia].
      * rewrite Hup, length_app. simpl. lia.
Qed.

Lemma parse_loop_line (s : list ascii) :
  nul_free s ->
  parse_loop (S (length s)) s 0 0 (<[0%nat := None]> (replicate MAXARGS None))
  = parse_outcome s.
Proof.
  intros Hs.
  apply (parse_loop_spec s Hs (S (length s)) 0); [lia|by left|lia|simpl; lia].
Qed.

(** *** The strings behind the pointers *)

Lemma peek_drop (s : list ascii) p k : peek (drop p s) k = peek s (p + k).
Proof. unfold peek. by rewrite lookup_drop. Qed.

Lemma run_of_spec (r : list ascii) :
  (length (run_of r) <= length r)%nat
  /\ (forall k, (k < length (run_of r))%nat -> is_white (peek r k) = false)
  /\ (length (run_of r) = length r \/ is_white (peek r (length (run_of r))) = true).
Proof.
  induction r as [|c r (IHle & IHin & IHend)]; simpl.
  - split; [done|]. split; [intros; lia|]. by left.
  - destruct (is_white c) eqn:Hc; simpl.
    + split; [lia|]. split; [intros; lia|]. by right.
    + split; [lia|]. split.
      * intros [|k] Hk; [done|]. apply IHin. lia.
      * destruct IHend as [->|?]; [by left|by right].
Qed.

Lemma cstr_of_run (r : list ascii) :
  nul_free r ->
  forall d, (length (run_of r) < d)%nat \/ length (run_of r) = length r ->
            cstr_of (zeroed d r) = String.string_of_list_ascii (run_of r).
Proof.
  unfold zeroed. induction 1 as [|c r Hc Hr IH]; intros d Hd.
  - by rewrite take_nil, drop_nil.
  - simpl in Hd. simpl run_of. destruct (is_white c) eqn:Hw.
    + destruct d as [|d]; [simpl in Hd; lia|]. simpl. unfold blank. by rewrite Hw.
    + assert (Ascii.eqb c zero = false) as Hz by (by apply Ascii.eqb_neq).
      destruct d as [|d]; simpl.
      * rewrite Hz. f_equal. apply (IH 0%nat). right. simpl in Hd. lia.
      * assert (blank c = c) as -> by (unfold blank; by rewrite Hw).
        rewrite Hz. f_equal. apply IH. simpl in Hd. lia.
Qed.

Lemma drop_zeroed (s : list ascii) m p :
  (p <= m)%nat -> (p <= length s)%nat ->
  drop p (zeroed m s) = zeroed (m - p) (drop p s).
Proof.
  intros Hpm Hp. unfold zeroed.
  rewrite drop_app_le by (rewrite length_fmap, length_take; lia).
  rewrite <- fmap_drop, drop_drop. f_equal.
  - f_equal. rewrite take_drop_commute. f_equal. f_equal. lia.
  - f_equal. lia.
Qed.

Lemma nul_free_drop (s : list ascii) p : nul_free s -> nul_free (drop p s).
Proof. apply Forall_drop. Qed.

Lemma token_string (s : list ascii) m p :
  nul_free s -> (p <= length s)%nat -> (p <= m)%nat ->
  (p + length (token_at s p) < m)%nat \/ (p + length (token_at s p))%nat = length s ->
  cstr (zeroed m s) p = String.string_of_list_ascii (token_at s p).
Proof.
  intros Hs Hp Hm He. unfold cstr, token_at in *.
  rewrite drop_zeroed by done.
  apply cstr_of_run; [by apply nul_free_drop|].
  rewrite length_drop. lia.
Qed.

Lemma starts_upto_lookup (s : list ascii) n j p :
  starts_upto s n !! j = Some p -> (p < n)%nat /\ starts_token s p = true.
Proof.
  intros Hj. apply list_elem_of_lookup_2 in Hj.
  apply list_elem_of_filter in Hj as [Hst Hin].
  apply elem_of_seq in Hin. split; [lia|done].
Qed.

Lemma starts_upto_order (s : list ascii) n :
  forall j k p q,
    starts_upto s n !! j = Some p -> starts_upto s n !! k = Some q ->
    (j < k)%nat -> (p < q)%nat.
Proof.
  induction n as [|n IH]; intros j k p q Hj Hk Hjk; [done|].
  rewrite starts_upto_S in Hj, Hk.
  apply lookup_app_Some in Hk as [Hk|[Hlen Hk]].
  - apply lookup_app_Some in Hj as [Hj|[Hlen' _]].
    + eauto.
    + apply lookup_lt_Some in Hk. lia.
  - destruct (starts_token s n); [|done].
    apply list_lookup_singleton_Some in Hk as [Hk0 <-].
    apply lookup_app_Some in Hj as [Hj|[Hlen' Hj]].
    + by apply starts_upto_lookup in Hj as [? _].
    + lia.
Qed.

(** A token ends before the next one starts. *)
Lemma token_end_before (s : list ascii) p q :
  starts_token s q = true -> (p < q)%nat ->
  (p + length (token_at s p) < q)%nat.
Proof.
  intros Hq Hpq. unfold token_at.
  destruct (run_of_spec (drop p s)) as (_ & Hin & _).
  destruct (Nat.lt_ge_cases (p + length (run_of (drop p s))) q) as [|Hge]; [done|].
  unfold starts_token in Hq. apply andb_true_iff in Hq as [_ Hq].
  destruct (Nat.eqb_spec q 0) as [|_]; [lia|]. simpl in Hq.
  specialize (Hin (q - 1 - p)%nat ltac:(lia)).
  rewrite peek_drop in Hin. replace (p + (q - 1 - p))%nat with (q - 1)%nat in Hin by lia.
  congruence.
Qed.

Lemma token_end_le (s : list ascii) p :
  (p <= length s)%nat -> (p + length (token_at s p) <= length s)%nat.
Proof.
  intros Hp. unfold token_at.
  destruct (run_of_spec (drop p s)) as (Hle & _). rewrite length_drop in Hle. lia.
Qed.

Lemma argv_strings_of (b : list ascii) (ptrs : list nat) :
  argv_strings b (length ptrs) (argv_of ptrs) = cstr b <$> ptrs.
Proof.
  unfold argv_strings, argv_of.
  rewrite take_app_length' by (by rewrite length_fmap).
  rewrite <- list_fmap_compose. reflexivity.
Qed.

Lemma token_starts_le (s : list ascii) j p :
  token_starts s !! j = Some p -> (p <= length s)%nat.
Proof. intros [? _]%starts_upto_lookup. lia. Qed.

Lemma tokens_of_blank (s : list ascii) :
  Forall (fun c => is_white c = true) s -> tokens_of s = [].
Proof.
  intros Hw. unfold tokens_of, token_starts.
  change (length s) with (0 + length s)%nat at 1.
  rewrite (starts_upto_skip s (length s) 0); [done|].
  intros j Hj. apply starts_token_white.
  destruct (lookup_lt_is_Some_2 s j ltac:(lia)) as [c Hc].
  rewrite (peek_lookup _ _ _ Hc). exact (Forall_lookup_1 _ _ _ _ Hw Hc).
Qed.

(** *** The tokenizer *)

Lemma parse_loop_tokens (s : list ascii) :
  nul_free s -> (length (tokens_of s) <= 15)%nat ->
  parse_loop (S (length s)) s 0 0 (<[0%nat := None]> (replicate MAXARGS None))
  = Some (Args (blank <$> s) (length (tokens_of s)) (argv_of (token_starts s)), []).
Proof.
  intros Hs Hlen. unfold tokens_of in *. rewrite length_fmap in *.
  rewrite parse_loop_line by done. unfold parse_outcome.
  by destruct (decide _); [|lia].
Qed.

Lemma argv_strings_tokens (s : list ascii) :
  nul_free s ->
  argv_strings (blank <$> s) (length (tokens_of s)) (argv_of (token_starts s))
  = String.string_of_list_ascii <$> tokens_of s.
Proof.
  intros Hs. unfold tokens_of at 1. rewrite length_fmap, argv_strings_of.
  unfold tokens_of. rewrite <- list_fmap_compose.
  apply list_fmap_ext. intros j p' Hp. simpl.
  rewrite <- zeroed_all. pose proof (token_starts_le _ _ _ Hp).
  apply token_string; [done|done|done|].
  pose proof (token_end_le s p' ltac:(done)). lia.
Qed.

(** C8 (as amended).  For every line with at most 15 maximal runs of
    non-whitespace characters, the tokenizer produces exactly these runs
    as tokens, in order, and zeroes every whitespace character of the
    line; an empty or all-whitespace line has no token. *)
Theorem tokenizer_maximal_runs (s : list ascii) :
  nul_free s -> (length (tokens_of s) <= 15)%nat ->
  tokenizes s
  /\ parse_loop (S (length s)) s 0 0 (<[0%nat := None]> (replicate MAXARGS None))
     = Some (Args (blank <$> s) (length (tokens_of s)) (argv_of (token_starts s)), [])
  /\ (Forall (fun c => is_white c = true) s -> tokens_of s = []).
Proof.
  intros Hs Hlen. pose proof (parse_loop_tokens s Hs Hlen) as Hrun.
  split; [|split; [exact Hrun|apply tokens_of_blank]].
  exists (blank <$> s), (length (tokens_of s)), (argv_of (token_starts s)).
  split; [exact Hrun|]. split; [|done]. by apply argv_strings_tokens.
Qed.

(** *** More on the tokenizer: what it leaves behind *)

Definition parsed_buf (r : parsed) : list ascii :=
  match r with Args b _ _ | TooMany b _ _ => b end.

Definition parsed_argc (r : parsed) : nat :=
  match r with Args _ argc _ | TooMany _ argc _ => argc end.

Definition parsed_argv (r : parsed) : list (option nat) :=
  match r with Args _ _ argv | TooMany _ _ argv => argv end.

(** Whether the loop was left by the [return 0] of its guard. *)
Definition parsed_too_many (r : parsed) : bool :=
  match r with Args _ _ _ => false | TooMany _ _ _ => true end.

(** A token as a handler may rely on it: not empty, and free of
    whitespace and of NUL. *)
Definition well_formed_token (a : list ascii) : Prop :=
  a <> [] /\ Forall (fun c => is_white c = false /\ c <> zero) a.

Lemma lookup_zeroed m (s : list ascii) i c :
  s !! i = Some c ->
  zeroed m s !! i = Some (if (i <? m)%nat then blank c else c).
Proof.
  intros Hc. unfold zeroed. pose proof (lookup_lt_Some _ _ _ Hc) as Hlt.
  destruct (Nat.ltb_spec i m) as [Him|Him].
  - rewrite lookup_app_l by (rewrite length_fmap, length_take; lia).
    by rewrite list_lookup_fmap, lookup_take_lt, Hc.
  - rewrite lookup_app_r; rewrite length_fmap, length_take; [|lia].
    rewrite lookup_drop, <- Hc. f_equal. lia.
Qed.

Lemma length_argv_of (ptrs : list nat) :
  (length ptrs <= MAXARGS)%nat -> length (argv_of ptrs) = MAXARGS.
Proof.
  intros Hle. unfold argv_of. rewrite length_app, length_fmap, length_replicate. lia.
Qed.

Lemma argv_of_lookup_lt (ptrs : list nat) j p :
  ptrs !! j = Some p -> argv_of ptrs !! j = Some (Some p).
Proof.
  intros Hj. unfold argv_of.
  rewrite lookup_app_l by (rewrite length_fmap; by eapply lookup_lt_Some).
  by rewrite list_lookup_fmap, Hj.
Qed.

Lemma argv_of_lookup_end (ptrs : list nat) :
  (length ptrs < MAXARGS)%nat -> argv_of ptrs !! length ptrs = Some None.
Proof.
  intros Hlt. unfold argv_of.
  rewrite lookup_app_r by (by rewrite length_fmap).
  rewrite length_fmap, Nat.sub_diag. apply lookup_replicate_2. lia.
Qed.

Lemma run_of_Forall (P : ascii -> Prop) (r : list ascii) :
  Forall P r -> Forall (fun c => is_white c = false /\ P c) (run_of r).
Proof.
  induction 1 as [|c r Hc _ IH]; simpl; [constructor|].
  destruct (is_white c) eqn:Hw; by constructor.
Qed.

Lemma tokens_of_well_formed (s : list ascii) :
  nul_free s -> Forall well_formed_token (tokens_of s).
Proof.
  intros Hs. unfold tokens_of. apply Forall_fmap, Forall_lookup.
  intros j p' Hp. apply starts_upto_lookup in Hp as [Hlt Hst].
  unfold starts_token in Hst. apply andb_true_iff in Hst as [Hnw _].
  apply negb_true_iff in Hnw. simpl. split.
  - unfold token_at. destruct (lookup_lt_is_Some_2 s p' Hlt) as [c Hc].
    rewrite (peek_lookup _ _ _ Hc) in Hnw.
    rewrite (drop_S _ _ _ Hc). simpl. by rewrite Hnw.
  - apply run_of_Forall. by apply nul_free_drop.
Qed.

(** The strings behind the first 15 pointers when the loop gives up. *)
Lemma argv_strings_overflow (s : list ascii) :
  nul_free s -> (15 < length (token_starts s))%nat ->
  argv_strings (zeroed (default 0%nat (token_starts s !! 15%nat)) s) 15
    (argv_of (take 15 (token_starts s)))
  = String.string_of_list_ascii <$> take 15 (tokens_of s).
Proof.
  intros Hs Hlen.
  destruct (lookup_lt_is_Some_2 (token_starts s) 15 Hlen) as [q Hq].
  rewrite Hq. simpl default.
  assert (length (take 15 (token_starts s)) = 15%nat) as Hl15
    by (rewrite length_take; lia).
  rewrite <- Hl15 at 1. rewrite argv_strings_of.
  unfold tokens_of. rewrite <- fmap_take, <- list_fmap_compose.
  apply list_fmap_ext. intros j p' Hp. simpl.
  apply lookup_take_Some in Hp as [Hp Hj].
  pose proof (starts_upto_order s _ _ _ _ _ Hp Hq Hj) as Hpq.
  destruct (starts_upto_lookup _ _ _ _ Hq) as [Hqlen Hqst].
  apply token_string; [done|lia|lia|]. left.
  by apply token_end_before.
Qed.

(** The parsing loop only writes [argv]: started on another array it
    takes the same way, and the two arrays end up with the same slots
    written. *)
Lemma parse_loop_frame n :
  forall b i k (a : list (option nat)) r tr,
    parse_loop n b i k a = Some (r, tr) ->
    (k <= parsed_argc r)%nat
    /\ length (parsed_argv r) = length a
    /\ (forall j, ~ (k <= j < parsed_argc r)%nat -> parsed_argv r !! j = a !! j).
Proof.
  induction n as [|n IH]; intros b i k a r tr Hrun; [discriminate|].
  cbn [parse_loop] in Hrun. destruct (gobble (length b) b i) as [b1 i1].
  destruct (Ascii.eqb (peek b1 i1) zero).
  { injection Hrun as <- <-. simpl. split; [done|]. split; done. }
  destruct (k =? MAXARGS - 1)%nat.
  { injection Hrun as <- <-. simpl. split; [done|]. split; done. }
  destruct (IH _ _ _ _ _ _ Hrun) as (Hle & Hlen & Hout).
  split; [lia|]. split; [by rewrite Hlen, length_insert|].
  intros j Hj. rewrite Hout by lia. apply list_lookup_insert_ne. lia.
Qed.

Lemma parse_loop_array n :
  forall b i k (a a' : list (option nat)) r tr,
    parse_loop n b i k a = Some (r, tr) ->
    exists r',
      parse_loop n b i k a' = Some (r', tr)
      /\ parsed_too_many r' = parsed_too_many r
      /\ parsed_buf r' = parsed_buf r
      /\ parsed_argc r' = parsed_argc r
      /\ (forall j, (k <= j < parsed_argc r)%nat ->
            (j < length a)%nat -> (j < length a')%nat ->
            parsed_argv r' !! j = parsed_argv r !! j).
Proof.
  induction n as [|n IH]; intros b i k a a' r tr Hrun; [discriminate|].
  cbn [parse_loop] in *. destruct (gobble (length b) b i) as [b1 i1].
  destruct (Ascii.eqb (peek b1 i1) zero).
  { injection Hrun as <- <-. eexists. split; [reflexivity|]. simpl.
    split; [done|]. split; [done|]. split; [done|]. intros; lia. }
  destruct (k =? MAXARGS - 1)%nat.
  { injection Hrun as <- <-. eexists. split; [reflexivity|]. simpl.
    split; [done|]. split; [done|]. split; [done|]. intros; lia. }
  destruct (IH _ _ _ _ (<[k := Some i1]> a') _ _ Hrun)
    as (r' & Hrun' & Hk & Hb & Hc & Hsl).
  exists r'. split; [exact Hrun'|]. split; [done|]. split; [done|]. split; [done|].
  intros j Hj Hja Hja'. destruct (decide (j = k)) as [->|Hne].
  - destruct (parse_loop_frame _ _ _ _ _ _ _ Hrun) as (_ & _ & Ho).
    destruct (parse_loop_frame _ _ _ _ _ _ _ Hrun') as (_ & _ & Ho').
    rewrite Ho, Ho' by lia. by rewrite !list_lookup_insert_eq.
  - apply Hsl; [lia|by rewrite length_insert..].
Qed.

(** X6.  The parsing loop is memory-safe on every line, whatever the
    uninitialised array [argv] holds on entry.  It returns; the buffer
    keeps its length and differs from the line only where a whitespace
    character was overwritten by NUL; [argc] is at most 15; the array
    keeps its [MAXARGS] slots, the slots below [argc] hold pointers
    into the line, the slots from [argc] on are as they were on entry
    (after [argv[0] = 0]), so that the closing store [argv[argc] = 0]
    falls inside the array; and the way the loop is left, the buffer,
    [argc] and the slots below [argc] do not depend on what the array
    held. *)
Theorem parse_loop_memory_safe (s : list ascii) (g : list (option nat)) :
  nul_free s -> length g = MAXARGS ->
  exists r tr,
    parse_loop (S (length s)) s 0 0 (<[0%nat := None]> g) = Some (r, tr)
    /\ length (parsed_buf r) = length s
    /\ (forall i c, s !! i = Some c ->
          parsed_buf r !! i = Some c
          \/ (is_white c = true /\ parsed_buf r !! i = Some zero))
    /\ (parsed_argc r <= 15)%nat
    /\ length (parsed_argv r) = MAXARGS
    /\ (forall j, (j < parsed_argc r)%nat ->
          exists p, parsed_argv r !! j = Some (Some p) /\ (p < length s)%nat)
    /\ (forall j, (parsed_argc r <= j)%nat ->
          parsed_argv r !! j = (<[0%nat := None]> g) !! j)
    /\ (<[parsed_argc r := None]> (parsed_argv r)) !! parsed_argc r = Some None
    /\ (forall g', length g' = MAXARGS ->
          exists r',
            parse_loop (S (length s)) s 0 0 (<[0%nat := None]> g') = Some (r', tr)
            /\ parsed_too_many r' = parsed_too_many r
            /\ parsed_buf r' = parsed_buf r
            /\ parsed_argc r' = parsed_argc r
            /\ take (parsed_argc r) (parsed_argv r')
               = take (parsed_argc r) (parsed_argv r)).
Proof.
  intros Hs Hg.
  assert (forall m i c, s !! i = Some c ->
            zeroed m s !! i = Some c
            \/ (is_white c = true /\ zeroed m s !! i = Some zero)) as Hbuf.
  { intros m i c Hc. rewrite (lookup_zeroed m s i c Hc).
    destruct (i <? m)%nat; [|by left]. unfold blank.
    destruct (is_white c); [by right|by left]. }
  (* the run on an array of null pointers *)
  assert (exists r0 tr,
            parse_loop (S (length s)) s 0 0 (<[0%nat := None]> (replicate MAXARGS None))
            = Some (r0, tr)
            /\ length (parsed_buf r0) = length s
            /\ (forall i c, s !! i = Some c ->
                  parsed_buf r0 !! i = Some c
                  \/ (is_white c = true /\ parsed_buf r0 !! i = Some zero))
            /\ (parsed_argc r0 <= 15)%nat
            /\ (forall j, (j < parsed_argc r0)%nat ->
                  exists p, parsed_argv r0 !! j = Some (Some p) /\ (p < length s)%nat))
    as (r0 & tr & Hrun0 & Hlen0 & Hbuf0 & Hargc0 & Hptr0).
  { rewrite (parse_loop_line s Hs). unfold parse_outcome.
    destruct (decide _) as [Hle|Hgt]; eexists _, _; (split; [reflexivity|]); simpl.
    - rewrite <- zeroed_all, length_zeroed. split; [done|]. split; [apply Hbuf|].
      split; [done|].
      intros j Hj. destruct (lookup_lt_is_Some_2 (token_starts s) j Hj) as [p' Hp].
      exists p'. split; [by apply argv_of_lookup_lt|].
      by apply starts_upto_lookup in Hp as [? _].
    - rewrite length_zeroed. split; [done|]. split; [apply Hbuf|]. split; [done|].
      intros j Hj.
      destruct (lookup_lt_is_Some_2 (token_starts s) j ltac:(lia)) as [p' Hp].
      exists p'. split.
      + apply argv_of_lookup_lt. by rewrite lookup_take_lt.
      + by apply starts_upto_lookup in Hp as [? _]. }
  assert (forall g', length g' = MAXARGS ->
            exists r',
              parse_loop (S (length s)) s 0 0 (<[0%nat := None]> g') = Some (r', tr)
              /\ parsed_too_many r' = parsed_too_many r0
              /\ parsed_buf r' = parsed_buf r0
              /\ parsed_argc r' = parsed_argc r0
              /\ length (parsed_argv r') = MAXARGS
              /\ (forall j, (j < parsed_argc r0)%nat ->
                    parsed_argv r' !! j = parsed_argv r0 !! j)
              /\ (forall j, (parsed_argc r0 <= j)%nat ->
                    parsed_argv r' !! j = (<[0%nat := None]> g') !! j)) as Hany.
  { intros g' Hg'.
    destruct (parse_loop_array _ _ _ _ _ (<[0%nat := None]> g') _ _ Hrun0)
      as (r' & Hrun' & Hk & Hb & Hc & Hsl).
    destruct (parse_loop_frame _ _ _ _ _ _ _ Hrun') as (_ & Hlen' & Hout').
    rewrite length_insert, Hg' in Hlen'.
    exists r'. split; [done|]. split; [done|]. split; [done|]. split; [done|].
    split; [done|]. split.
    - intros j Hj. apply Hsl; [lia|rewrite length_insert..].
      + rewrite length_replicate. unfold MAXARGS. lia.
      + rewrite Hg'. unfold MAXARGS. lia.
    - intros j Hj. apply Hout'. rewrite Hc. lia. }
  destruct (Hany g Hg) as (r & Hrun & Hk & Hb & Hc & Hlen & Hlow & Hhigh).
  exists r, tr. rewrite Hk, Hb, Hc.
  split; [done|]. split; [done|]. split; [done|]. split; [done|]. split; [done|].
  split; [|split; [done|split]].
  - intros j Hj. rewrite Hlow by done. by apply Hptr0.
  - apply list_lookup_insert_eq. rewrite Hlen. unfold MAXARGS. lia.
  - intros g' Hg'.
    destruct (Hany g' Hg') as (r' & Hrun' & Hk' & Hb' & Hc' & Hlen' & Hlow' & _).
    exists r'. split; [done|]. split; [done|]. split; [done|]. split; [done|].
    apply list_eq. intros j. destruct (Nat.lt_ge_cases j (parsed_argc r0)) as [Hj|Hj].
    + by rewrite !lookup_take_lt, Hlow, Hlow' by done.
    + by rewrite !lookup_take_ge by done.
Qed.

(** X7.  Whatever the line, the strings reachable through
    [argv[0 .. argc-1]] when the parsing loop is left are well formed:
    there are [argc] of them, none is empty and none holds a whitespace
    character or a NUL. *)
Theorem parse_loop_tokens_well_formed (s : list ascii) (r : parsed) (tr : trace) :
  nul_free s ->
  parse_loop (S (length s)) s 0 0 (<[0%nat := None]> (replicate MAXARGS None))
  = Some (r, tr) ->
  length (argv_strings (parsed_buf r) (parsed_argc r) (parsed_argv r)) = parsed_argc r
  /\ Forall (fun a => well_formed_token (String.list_ascii_of_string a))
       (argv_strings (parsed_buf r) (parsed_argc r) (parsed_argv r)).
Proof.
  intros Hs. rewrite (parse_loop_line s Hs). unfold parse_outcome.
  pose proof (tokens_of_well_formed s Hs) as Hwf.
  assert (forall l, Forall well_formed_token l ->
            Forall (fun a => well_formed_token (String.list_ascii_of_string a))
              (String.string_of_list_ascii <$> l)) as Hconv.
  { intros l Hl. apply Forall_fmap. eapply Forall_impl; [exact Hl|].
    intros a Ha. simpl. by rewrite String.list_ascii_of_string_of_list_ascii. }
  destruct (decide _) as [Hle|Hgt]; intros [= <- <-]; simpl.
  - replace (length (token_starts s)) with (length (tokens_of s))
      by (unfold tokens_of; by rewrite length_fmap).
    rewrite argv_strings_tokens by done.
    split; [by rewrite length_fmap|by apply Hconv].
  - rewrite argv_strings_overflow by (done || lia).
    split.
    + rewrite length_fmap, length_take. unfold tokens_of. rewrite length_fmap. lia.
    + apply Hconv. by apply Forall_take.
Qed.

(** *** Lines laid out from given tokens *)

(** [layout ts s]: the line [s] is made of the tokens [ts], in order,
    each preceded by a run of whitespace that may be empty before the
    first token only, and followed by whitespace or by the end of the
    line. *)
Inductive layout : list (list ascii) -> list ascii -> Prop :=
| layout_blank (ws : list ascii) :
    Forall (fun c => is_white c = true) ws -> layout [] ws
| layout_token (ws t rest : list ascii) (ts : list (list ascii)) :
    Forall (fun c => is_white c = true) ws ->
    well_formed_token t ->
    rest = [] \/ is_white (peek rest 0) = true ->
    layout ts rest ->
    layout (t :: ts) (ws ++ t ++ rest).

Lemma peek_app_l (l1 l2 : list ascii) i :
  (i < length l1)%nat -> peek (l1 ++ l2) i = peek l1 i.
Proof. intros Hi. unfold peek. by rewrite lookup_app_l. Qed.

Lemma peek_app_r (l1 l2 : list ascii) i :
  (length l1 <= i)%nat -> peek (l1 ++ l2) i = peek l2 (i - length l1).
Proof. intros Hi. unfold peek. by rewrite lookup_app_r. Qed.

Lemma peek_Forall (P : ascii -> Prop) (l : list ascii) i :
  Forall P l -> (i < length l)%nat -> P (peek l i).
Proof.
  intros Hl Hi. destruct (lookup_lt_is_Some_2 l i Hi) as [c Hc].
  rewrite (peek_lookup _ _ _ Hc). exact (Forall_lookup_1 _ _ _ _ Hl Hc).
Qed.

Lemma starts_upto_shift (s rest : list ascii) b n :
  (forall j, (j < n)%nat -> starts_token s (b + j) = starts_token rest j) ->
  starts_upto s (b + n) = starts_upto s b ++ (Nat.add b <$> starts_upto rest n).
Proof.
  induction n as [|n IH]; intros Hj.
  - by rewrite Nat.add_0_r, app_nil_r.
  - replace (b + S n)%nat with (S (b + n)) by lia.
    rewrite !starts_upto_S, IH, Hj by (intros; (apply Hj || idtac); lia).
    rewrite fmap_app, app_assoc. by destruct (starts_token rest n).
Qed.

Lemma run_of_app (t rest : list ascii) :
  Forall (fun c => is_white c = false /\ c <> zero) t ->
  rest = [] \/ is_white (peek rest 0) = true ->
  run_of (t ++ rest) = t.
Proof.
  intros Ht Hrest. induction Ht as [|c t [Hc _] _ IH]; simpl.
  - destruct Hrest as [->|Hw]; [done|]. destruct rest as [|c rest]; [done|].
    simpl. unfold peek in Hw. simpl in Hw. by rewrite Hw.
  - by rewrite Hc, IH.
Qed.

Lemma tokens_of_layout_token (ws t rest : list ascii) :
  Forall (fun c => is_white c = true) ws ->
  well_formed_token t ->
  rest = [] \/ is_white (peek rest 0) = true ->
  tokens_of (ws ++ t ++ rest) = t :: tokens_of rest.
Proof.
  intros Hws [Hne Ht] Hrest.
  set (s := ws ++ t ++ rest). set (a := length ws). set (b := (a + length t)%nat).
  assert (0 < length t)%nat as Hlt by (destruct t; [done|simpl; lia]).
  assert (forall i, (i < a)%nat -> is_white (peek s i) = true) as Hpre.
  { intros i Hi. unfold s. rewrite peek_app_l by done.
    by apply (peek_Forall (fun c => is_white c = true)). }
  assert (forall i, (a <= i < b)%nat -> is_white (peek s i) = false) as Hin.
  { intros i Hi. unfold s. rewrite peek_app_r, peek_app_l by (fold a; lia).
    apply (peek_Forall (fun c => is_white c = false /\ c <> zero)); [done|fold a; lia]. }
  assert (forall j, peek s (b + j) = peek rest j) as Hpost.
  { intros j. unfold s. rewrite peek_app_r by (fold a; lia).
    rewrite peek_app_r by (fold a; lia). f_equal. unfold b. fold a. lia. }
  assert (starts_upto s b = [a]) as Hb.
  { replace b with (S a + (length t - 1))%nat by (unfold b; lia).
    rewrite starts_upto_skip.
    - rewrite starts_upto_S. change a with (0 + a)%nat at 1.
      rewrite starts_upto_skip by (intros; apply starts_token_white, Hpre; lia).
      unfold starts_token. rewrite Hin by (unfold b; lia). simpl.
      destruct (Nat.eqb_spec a 0) as [|Hne0]; [done|].
      by rewrite Hpre by lia.
    - intros j Hj. apply starts_token_inside; [lia|]. apply Hin. unfold b. lia. }
  assert (forall j, (j < length rest)%nat ->
            starts_token s (b + j) = starts_token rest j) as Hshift.
  { intros j Hj. unfold starts_token. rewrite Hpost.
    destruct j as [|j].
    - destruct Hrest as [->|Hw]; [simpl in Hj; lia|]. by rewrite Hw.
    - f_equal. replace (b + S j - 1)%nat with (b + j)%nat by lia.
      rewrite Hpost. simpl. rewrite Nat.sub_0_r.
      by destruct (Nat.eqb_spec (b + S j) 0) as [|_]; [lia|]. }
  unfold tokens_of, token_starts.
  replace (length s) with (b + length rest)%nat
    by (unfold s, b, a; rewrite !length_app; lia).
  rewrite (starts_upto_shift s rest b (length rest) Hshift), Hb.
  simpl. f_equal.
  - unfold token_at, s, a. rewrite drop_app_length. by apply run_of_app.
  - rewrite <- list_fmap_compose. apply list_fmap_ext. intros _ p' _. simpl.
    unfold token_at, s. f_equal.
    rewrite drop_app_ge by (fold a; unfold b; lia).
    rewrite drop_app_ge by (fold a; unfold b; lia).
    f_equal. fold a. unfold b. lia.
Qed.

Lemma tokens_of_layout ts s : layout ts s -> tokens_of s = ts.
Proof.
  induction 1 as [ws Hws|ws t rest ts Hws Ht Hrest _ IH].
  - by apply tokens_of_blank.
  - rewrite tokens_of_layout_token by done. by rewrite IH.
Qed.

Lemma nul_free_layout ts s : layout ts s -> nul_free s.
Proof.
  assert (forall ws, Forall (fun c => is_white c = true) ws -> nul_free ws) as Hw.
  { intros ws Hws. eapply Forall_impl; [exact Hws|]. by intros c Hc ->. }
  induction 1 as [ws Hws|ws t rest ts Hws [_ Ht] _ _ IH]; [by apply Hw|].
  apply Forall_app. split; [by apply Hw|]. apply Forall_app. split; [|done].
  eapply Forall_impl; [exact Ht|]. by intros c [_ ?].
Qed.

(** X8.  Laying tokens out and parsing them back is the identity: for
    every line made of at most 15 well-formed tokens separated by
    whitespace, with any whitespace before and after, the parsing loop
    is left by [break] with exactly these tokens behind [argv], in
    order, and nothing printed. *)
Theorem parse_loop_layout (ts : list (list ascii)) (s : list ascii) :
  layout ts s -> (length ts <= 15)%nat ->
  exists b argv,
    parse_loop (S (length s)) s 0 0 (<[0%nat := None]> (replicate MAXARGS None))
    = Some (Args b (length ts) argv, [])
    /\ argv_strings b (length ts) argv = String.string_of_list_ascii <$> ts.
Proof.
  intros Hlay Hlen. pose proof (nul_free_layout _ _ Hlay) as Hs.
  pose proof (tokens_of_layout _ _ Hlay) as Htok.
  exists (blank <$> s), (argv_of (token_starts s)). rewrite <- Htok in *.
  split; [by apply parse_loop_tokens|by apply argv_strings_tokens].
Qed.

Section Interpreter.

(** The table of commands, the function behind each of its pointers, and
    the line reader: the line (or no line) that its [n]-th call returns. *)
Context {F : Type}.
Variable call : F -> handler.
Variable table : list (Command F).
Variable readline : nat -> option (list ascii).

(** [for (i = 0; i < NCOMMANDS; i++) ...] and the report that follows it *)
Fixpoint lookup_loop (cmds : list (Command F)) (fuel argc : nat)
    (argv : list string) (tf : Z) : M Z :=
  match cmds with
  | [] =>
      cprintf "Unknown command '%s'\n" [AStr (argv_at argv 0)] ;;
      ret 0
  | c :: cmds' =>
      if strcmp (argv_at argv 0) (name c) =? 0
      then call (func c) fuel argc argv tf
      else lookup_loop cmds' fuel argc argv tf
  end.

(** The second half of [runcmd]: lookup and invocation. *)
Definition dispatch (fuel argc : nat) (argv : list string) (tf : Z) : M Z :=
  if (argc =? 0)%nat then ret 0
  else lookup_loop table fuel argc argv tf.

(** [runcmd].  The array [char *argv[MAXARGS]] is a local that is not
    initialised: only [argv[0] = 0] is stored before the loop.  The
    slots read afterwards, [argv[0 .. argc-1]], have all been written by
    the loop, so the run is set here on an array of null pointers; the
    loop leaves the same buffer, the same [argc] and the same pointers
    below [argc] on any other array. *)
Definition runcmd (fuel : nat) (buf : list ascii) (tf : Z) : M Z :=
  r <- parse_loop (S (length buf)) buf 0 0 (<[0%nat := None]> (replicate MAXARGS None)) ;;
  match r with
  | TooMany _ _ _ => ret 0
  | Args b argc argv =>
      let argv := <[argc := None]> argv in
      dispatch fuel argc (argv_strings b argc argv) tf
  end.

(** One turn of the [while (1)] loop of [monitor], for the [n]-th line;
    its value tells whether the loop is left. *)
Definition monitor_turn (fuel n : nat) (tf : Z) : M bool :=
  emit (Readline "K> ") ;;
  match readline n with
  | None => ret false
  | Some buf => r <- runcmd fuel buf tf ;; ret (r <? 0)
  end.

Fixpoint monitor_loop (fuel n : nat) (tf : Z) : M unit :=
  match fuel with
  | O => None
  | S fuel' =>
      leave <- monitor_turn fuel' n tf ;;
      if leave then ret tt else monitor_loop fuel' (S n) tf
  end.

Definition monitor (fuel : nat) (tf : Z) : M unit :=
  cprintf "Welcome to the JOS kernel monitor!\n" [] ;;
  cprintf "Type 'help' for a list of commands.\n" [] ;;
  monitor_loop fuel 0 tf.

(** *** The dispatcher *)

Lemma lookup_loop_unknown cmds fuel argc argv tf :
  Forall (fun c => strcmp (argv_at argv 0) (name c) <> 0) cmds ->
  lookup_loop cmds fuel argc argv tf =
    Some (0, [Cprintf "Unknown command '%s'\n" [AStr (argv_at argv 0)]]).
Proof.
  induction 1 as [|c cmds Hc _ IH]; [reflexivity|]. cbn [lookup_loop].
  destruct (Z.eqb_spec (strcmp (argv_at argv 0) (name c)) 0) as [|_]; done.
Qed.

Lemma lookup_loop_first pre c post fuel argc argv tf :
  Forall (fun c' => strcmp (argv_at argv 0) (name c') <> 0) pre ->
  strcmp (argv_at argv 0) (name c) = 0 ->
  lookup_loop (pre ++ c :: post) fuel argc argv tf
  = call (func c) fuel argc argv tf.
Proof.
  intros Hpre Hc. induction Hpre as [|c' pre Hc' _ IH]; cbn [lookup_loop app].
  - by rewrite Hc.
  - destruct (Z.eqb_spec (strcmp (argv_at argv 0) (name c')) 0) as [|_]; done.
Qed.

Lemma lookup_loop_result cmds fuel argc argv tf r t :
  lookup_loop cmds fuel argc argv tf = Some (r, t) -> r <> 0 ->
  exists c, c ∈ cmds /\ call (func c) fuel argc argv tf = Some (r, t).
Proof.
  intros Hrun Hr. induction cmds as [|c cmds IH]; cbn [lookup_loop] in Hrun.
  - by injection Hrun as <- _.
  - destruct (strcmp (argv_at argv 0) (name c) =? 0).
    + exists c. split; [apply list_elem_of_here|done].
    + destruct (IH Hrun) as (c' & Hin & Hc'). exists c'.
      split; [by apply list_elem_of_further|done].
Qed.

(** A non-zero result of [runcmd] is the result of a handler of the table. *)
Lemma runcmd_result fuel buf tf r t :
  runcmd fuel buf tf = Some (r, t) -> r <> 0 ->
  exists c argc argv t',
    c ∈ table /\ call (func c) fuel argc argv tf = Some (r, t').
Proof.
  unfold runcmd. intros (p & t1 & t2 & _ & Hk & _)%bind_Some Hr.
  destruct p as [b argc argv|b argc argv]; [|by injection Hk as <- _].
  unfold dispatch in Hk. destruct (argc =? 0)%nat; [by injection Hk as <- _|].
  destruct (lookup_loop_result _ _ _ _ _ _ _ Hk Hr) as (c & Hin & Hc). eauto 8.
Qed.

Lemma runcmd_dispatch (s : list ascii) fuel tf :
  nul_free s -> (length (tokens_of s) <= 15)%nat ->
  runcmd fuel s tf
  = dispatch fuel (length (tokens_of s))
      (String.string_of_list_ascii <$> tokens_of s) tf.
Proof.
  intros Hs Hlen.
  unfold runcmd. rewrite (parse_loop_tokens s Hs Hlen). cbn [bind].
  assert (argv_strings (blank <$> s) (length (tokens_of s))
            (<[length (tokens_of s) := None]> (argv_of (token_starts s)))
          = String.string_of_list_ascii <$> tokens_of s) as ->.
  { rewrite <- (argv_strings_tokens s Hs). unfold argv_strings.
    by rewrite take_insert_ge. }
  by destruct (dispatch _ _ _ _) as [[??]|].
Qed.

(** C7.  With zero tokens the dispatcher does nothing and returns 0.
    With a first token that matches no name of the table it prints the
    unknown-command line echoing that token and returns 0, whatever the
    handlers of the table are: none is called.  With a first token that
    matches, it returns what the first matching handler, in table order,
    returns when called with the token count and the whole token list.
    [runcmd] dispatches the tokens of the line in this way. *)
Theorem dispatch_cases (fuel argc : nat) (argv : list string) (tf : Z) :
  (argc = 0%nat -> dispatch fuel argc argv tf = Some (0, []))
  /\ (argc <> 0%nat ->
      Forall (fun c => strcmp (argv_at argv 0) (name c) <> 0) table ->
      dispatch fuel argc argv tf =
        Some (0, [Cprintf "Unknown command '%s'\n" [AStr (argv_at argv 0)]]))
  /\ (forall pre c post,
        argc <> 0%nat -> table = pre ++ c :: post ->
        Forall (fun c' => strcmp (argv_at argv 0) (name c') <> 0) pre ->
        strcmp (argv_at argv 0) (name c) = 0 ->
        dispatch fuel argc argv tf = call (func c) fuel argc argv tf)
  /\ (forall s, nul_free s -> (length (tokens_of s) <= 15)%nat ->
        runcmd fuel s tf =
          dispatch fuel (length (tokens_of s))
            (String.string_of_list_ascii <$> tokens_of s) tf).
Proof.
  unfold dispatch. split; [|split; [|split]].
  - by intros ->.
  - intros Hne Hall. destruct (Nat.eqb_spec argc 0) as [|_]; [done|].
    by apply lookup_loop_unknown.
  - intros pre c post Hne -> Hpre Hc. destruct (Nat.eqb_spec argc 0) as [|_]; [done|].
    by apply lookup_loop_first.
  - intros s Hs Hlen. by apply runcmd_dispatch.
Qed.

(** C4.  On every line with more than 15 tokens the parsing loop stops
    with the report of too many arguments; the 15 slots of [argv]
    filled so far still point at the first 15 tokens; and [runcmd]
    returns 0 with that report as its whole trace, whatever the table
    and its handlers are: none is called. *)
Theorem runcmd_too_many (s : list ascii) (fuel : nat) (tf : Z) :
  nul_free s -> (15 < length (tokens_of s))%nat ->
  (exists b argv,
      parse_loop (S (length s)) s 0 0 (<[0%nat := None]> (replicate MAXARGS None))
      = Some (TooMany b 15 argv,
              [Cprintf "Too many arguments (max %d)\n" [AInt 16]])
      /\ argv_strings b 15 argv
         = String.string_of_list_ascii <$> take 15 (tokens_of s))
  /\ runcmd fuel s tf
     = Some (0, [Cprintf "Too many arguments (max %d)\n" [AInt 16]]).
Proof.
  intros Hs Hlen. unfold tokens_of in Hlen. rewrite length_fmap in Hlen.
  pose proof (parse_loop_line s Hs) as Hrun. unfold parse_outcome in Hrun.
  destruct (decide _) as [|_]; [lia|].
  split; [|unfold runcmd; by rewrite Hrun].
  eexists _, _. split; [exact Hrun|].
  destruct (lookup_lt_is_Some_2 (token_starts s) 15 Hlen) as [q Hq].
  rewrite Hq. simpl default.
  assert (length (take 15 (token_starts s)) = 15%nat) as Hl15
    by (rewrite length_take; lia).
  rewrite <- Hl15 at 1. rewrite argv_strings_of.
  unfold tokens_of. rewrite <- fmap_take, <- list_fmap_compose.
  apply list_fmap_ext. intros j p' Hp. simpl.
  apply lookup_take_Some in Hp as [Hp Hj].
  pose proof (starts_upto_order s _ _ _ _ _ Hp Hq Hj) as Hpq.
  destruct (starts_upto_lookup _ _ _ _ Hq) as [Hqlen Hqst].
  apply token_string; [done|lia|lia|]. left.
  by apply token_end_before.
Qed.

(** *** The read-eval loop *)

Lemma monitor_turn_skip fuel n tf :
  readline n = None -> monitor_turn fuel n tf = Some (false, [Readline "K> "]).
Proof. intros Hn. unfold monitor_turn. by rewrite Hn. Qed.

Lemma monitor_turn_leave fuel n tf t :
  monitor_turn fuel n tf = Some (true, t) ->
  exists buf r t', readline n = Some buf
                   /\ runcmd fuel buf tf = Some (r, t') /\ r < 0.
Proof.
  unfold monitor_turn. intros (_ & t1 & t2 & _ & Hk & _)%bind_Some.
  destruct (readline n) as [buf|]; [|discriminate].
  apply bind_Some in Hk as (r & t1' & t2' & Hrun & Hret & _).
  injection Hret as Hr _. exists buf, r, t1'. split; [done|]. split; [done|].
  by apply Z.ltb_lt.
Qed.

Lemma monitor_loop_leaves fuel :
  forall n tf t,
    monitor_loop fuel n tf = Some (tt, t) ->
    exists n' fuel' buf r t',
      readline n' = Some buf /\ runcmd fuel' buf tf = Some (r, t') /\ r < 0.
Proof.
  induction fuel as [|fuel IH]; intros n tf t Hrun; [discriminate|].
  cbn [monitor_loop] in Hrun.
  apply bind_Some in Hrun as ([|] & t1 & t2 & Hturn & Hk & _).
  - destruct (monitor_turn_leave _ _ _ _ Hturn) as (buf & r & t' & ? & ? & ?).
    eauto 10.
  - eauto.
Qed.

Lemma monitor_loop_forever tf :
  (forall fuel buf r t, runcmd fuel buf tf = Some (r, t) -> 0 <= r) ->
  forall fuel n, monitor_loop fuel n tf = None.
Proof.
  intros Hcont. induction fuel as [|fuel IH]; intros n; [reflexivity|].
  cbn [monitor_loop]. unfold monitor_turn.
  destruct (readline n) as [buf|]; [|cbn; by rewrite IH].
  destruct (runcmd fuel buf tf) as [[r t]|] eqn:Hrun; [|reflexivity].
  apply Hcont in Hrun. cbn. destruct (Z.ltb_spec r 0) as [|_]; [lia|].
  by rewrite IH.
Qed.

(** *** More on [runcmd] and on the loop of [monitor] *)

Lemma no_nul_elem (names : list string) tok :
  Forall no_nul names -> tok ∈ names -> no_nul tok.
Proof. intros Hall Hin. by eapply (proj1 (Forall_forall _ _) Hall). Qed.

(** With names free of NUL, the first command named like the token is
    the one called. *)
Lemma lookup_loop_known cmds fuel argc argv tf :
  Forall no_nul (name <$> cmds) ->
  argv_at argv 0 ∈ name <$> cmds ->
  exists c, c ∈ cmds /\ name c = argv_at argv 0
            /\ lookup_loop cmds fuel argc argv tf = call (func c) fuel argc argv tf.
Proof.
  intros Hnames Hin. pose proof (no_nul_elem _ _ Hnames Hin) as Htok.
  induction cmds as [|c cmds IH]; [by apply elem_of_nil in Hin|].
  cbn [lookup_loop]. rewrite fmap_cons in Hnames, Hin.
  apply Forall_cons in Hnames as [Hc Hnames].
  destruct (Z.eqb_spec (strcmp (argv_at argv 0) (name c)) 0) as [Hcmp|Hcmp].
  - exists c. split; [apply list_elem_of_here|]. split; [|done].
    symmetry. by apply strcmp_eq.
  - apply elem_of_cons in Hin as [Heq|Hin].
    { rewrite Heq, strcmp_refl in Hcmp. done. }
    destruct (IH Hnames Hin) as (c' & Hc' & Hname & Hrun).
    exists c'. split; [by apply list_elem_of_further|done].
Qed.

Lemma lookup_loop_foreign cmds fuel argc argv tf :
  no_nul (argv_at argv 0) -> Forall no_nul (name <$> cmds) ->
  argv_at argv 0 ∉ name <$> cmds ->
  lookup_loop cmds fuel argc argv tf
  = Some (0, [Cprintf "Unknown command '%s'\n" [AStr (argv_at argv 0)]]).
Proof.
  intros Htok Hnames Hout. apply lookup_loop_unknown.
  apply Forall_forall. intros c Hc Hcmp. apply Hout.
  apply list_elem_of_fmap. exists c. split; [|done].
  apply strcmp_eq; [done| |done].
  apply (no_nul_elem _ _ Hnames). apply list_elem_of_fmap. by exists c.
Qed.



End Interpreter.

(** *** The built-in table *)

Section Builtins.

Variable read_ebp : Z.
Variable mem : Z -> Z.
Variable debuginfo_eip : Z -> Z * Eipdebuginfo.
Variable rcr3 : Z.
Variable KADDR : Z -> Z.
Variable pgdir_walk : Z -> Z -> Z -> Z.
Variable strtol : string -> Z.
Variables sym_start sym_entry sym_etext sym_edata sym_end : Z.
Variable readline : nat -> option (list ascii).

Local Abbreviation jos_call :=
  (call_builtin read_ebp mem debuginfo_eip rcr3 KADDR pgdir_walk strtol
     sym_start sym_entry sym_etext sym_edata sym_end).

Lemma call_builtin_continue f fuel argc argv tf r t :
  jos_call f fuel argc argv tf = Some (r, t) -> r = 0.
Proof.
  destruct f; cbn [call_builtin]; intros Hrun.
  - by injection Hrun as <- _.
  - by injection Hrun as <- _.
  - unfold mon_backtrace in Hrun.
    apply bind_Some in Hrun as (_ & _ & ? & _ & Hrun & _).
    apply bind_Some in Hrun as (_ & _ & ? & _ & Hrun & _).
    by injection Hrun as <- _.
  - unfold mon_showmappings in Hrun.
    destruct (negb _); [by injection Hrun as <- _|].
    destruct (_ >? _); [by injection Hrun as <- _|].
    apply bind_Some in Hrun as (_ & _ & ? & _ & Hrun & _).
    by injection Hrun as <- _.
Qed.

Lemma runcmd_builtin_continue fuel buf tf r t :
  runcmd jos_call commands fuel buf tf = Some (r, t) -> r = 0.
Proof.
  intros Hrun. destruct (decide (r = 0)) as [|Hr]; [done|].
  destruct (runcmd_result _ _ _ _ _ _ _ Hrun Hr) as (c & argc & argv & t' & _ & Hc).
  by apply call_builtin_continue in Hc.
Qed.

(** C9.  The loop of [monitor] is left only after a handler of the
    table has returned a negative value, the stop signal, to [runcmd];
    a missing line skips the turn without running [runcmd]; no built-in
    handler returns anything but 0, and [runcmd] over the built-in
    table returns 0 on every line (unknown commands and usage errors
    included), so that with the built-in table the loop is still
    running after any number of turns, whatever is read. *)
Theorem monitor_leaves_only_on_stop :
  (forall (F : Type) (call : F -> handler) (table : list (Command F)) fuel tf t,
      monitor call table readline fuel tf = Some (tt, t) ->
      exists n fuel' buf r t' c argc argv t'',
        readline n = Some buf
        /\ runcmd call table fuel' buf tf = Some (r, t') /\ r < 0
        /\ c ∈ table /\ call (func c) fuel' argc argv tf = Some (r, t''))
  /\ (forall (F : Type) (call : F -> handler) (table : list (Command F)) fuel n tf,
        readline n = None ->
        monitor_turn call table readline fuel n tf = Some (false, [Readline "K> "]))
  /\ (forall f fuel argc argv tf r t,
        jos_call f fuel argc argv tf = Some (r, t) -> r = 0)
  /\ (forall fuel buf tf r t,
        runcmd jos_call commands fuel buf tf = Some (r, t) -> r = 0)
  /\ (forall fuel tf, monitor jos_call commands readline fuel tf = None).
Proof.
  split; [|split; [|split; [|split]]].
  - intros F call table fuel tf t Hrun. unfold monitor in Hrun.
    apply bind_Some in Hrun as (_ & _ & ? & _ & Hrun & _).
    apply bind_Some in Hrun as (_ & _ & ? & _ & Hrun & _).
    destruct (monitor_loop_leaves _ _ _ _ _ _ _ Hrun)
      as (n & fuel' & buf & r & t' & Hline & Hcmd & Hr).
    destruct (runcmd_result _ _ _ _ _ _ _ Hcmd ltac:(lia))
      as (c & argc & argv & t'' & Hin & Hc).
    exists n, fuel', buf, r, t', c, argc, argv, t''. done.
  - intros. by apply monitor_turn_skip.
  - apply call_builtin_continue.
  - apply runcmd_builtin_continue.
  - intros fuel tf. unfold monitor.
    rewrite (monitor_loop_forever jos_call commands readline tf); [done|].
    intros fuel' buf r t ->%runcmd_builtin_continue. done.
Qed.

(** X11.  [help] and the dispatcher agree on the commands.  [mon_help]
    returns 0 after one line per entry of the table, in table order,
    with its name and description; these names are pairwise distinct; a
    first token that is one of them dispatches to the handler registered
    under it, and any other first token is reported unknown. *)
Theorem help_lists_dispatched_names (fuel argc : nat) (argv : list string) (tf : Z) :
  (exists t,
      mon_help fuel argc argv tf = Some (0, t)
      /\ t = (fun c => Cprintf "%s - %s\n" [AStr (name c); AStr (desc c)]) <$> commands)
  /\ NoDup (name <$> commands)
  /\ (argc <> 0%nat -> argv_at argv 0 ∈ name <$> commands ->
      exists c, c ∈ commands /\ name c = argv_at argv 0
                /\ dispatch jos_call commands fuel argc argv tf
                   = jos_call (func c) fuel argc argv tf)
  /\ (argc <> 0%nat -> no_nul (argv_at argv 0) ->
      argv_at argv 0 ∉ name <$> commands ->
      dispatch jos_call commands fuel argc argv tf
      = Some (0, [Cprintf "Unknown command '%s'\n" [AStr (argv_at argv 0)]])).
Proof.
  assert (Forall no_nul (name <$> commands)) as Hnames
    by (cbn; repeat constructor; discriminate).
  split; [|split; [|split]].
  - eexists. split; reflexivity.
  - apply (bool_decide_unpack _). by vm_compute.
  - intros Hne Hin. unfold dispatch.
    destruct (Nat.eqb_spec argc 0) as [|_]; [done|]. by apply lookup_loop_known.
  - intros Hne Hnul Hout. unfold dispatch.
    destruct (Nat.eqb_spec argc 0) as [|_]; [done|]. by apply lookup_loop_foreign.
Qed.

End Builtins.

(** ** A concrete machine, for running the model

    Modelled from the spec: [strtol] is defined in [lib/string.c], which
    is not part of the sources at hand.  Called with base 0 it reads a
    hexadecimal number after a [0x] prefix and a decimal number
    otherwise, up to the first character that is not a digit. *)

Definition digit_of (c : ascii) : option Z :=
  let n := Z.of_N (N_of_ascii c) in
  if (48 <=? n) && (n <=? 57) then Some (n - 48)
  else if (97 <=? n) && (n <=? 122) then Some (n - 97 + 10)
  else if (65 <=? n) && (n <=? 90) then Some (n - 65 + 10)
  else None.

Fixpoint strtol_digits (base : Z) (s : string) (acc : Z) : Z :=
  match s with
  | EmptyString => acc
  | String c s' =>
      match digit_of c with
      | Some d => if d <? base then strtol_digits base s' (acc * base + d) else acc
      | None => acc
      end
  end.

Definition strtol_model (s : string) : Z :=
  match s with
  | String "0" (String "x" s') => strtol_digits 16 s' 0
  | _ => strtol_digits 10 s 0
  end.

(** A small machine: two stack frames, at [0x1000] and [0x2000], the
    first called from [0xf0100040] inside a function that starts at
    [0xf0100000]; one mapped page, [0x1000], whose entry at [0x3000]
    holds frame [0x123000] with the present, writable and user bits. *)

Definition demo_mem (a : Z) : Z :=
  if a =? 4096 then 8192
  else if a =? 4100 then 4027580480
  else if a =? 8192 then 0
  else if a =? 8196 then 4027580672
  else if a =? 12288 then 1191943
  else 0.

Definition demo_debuginfo (eip : Z) : Z * Eipdebuginfo :=
  if eip =? 4027580480
  then (0, mkEipdebuginfo "kern/init.c" 24 "test_backtrace" 14 4027580416)
  else (-1, mkEipdebuginfo "<unknown>" 0 "<unknown>" 9 eip).

Definition demo_walk (pgdir va create : Z) : Z :=
  if va =? 4096 then 12288 else 0.

Definition demo_KADDR (pa : Z) : Z := pa + KERNBASE.

Definition demo_call : builtin -> handler :=
  call_builtin 4096 demo_mem demo_debuginfo 0 demo_KADDR demo_walk strtol_model
    1048588 4027580428 4027587937 4027650048 4027652672.

Definition demo_showmappings : handler :=
  mon_showmappings demo_mem 0 demo_KADDR demo_walk strtol_model.

Definition line (s : string) : list ascii := String.list_ascii_of_string s.

(** ** The model at work *)

Example run_showmappings_range :
  runcmd demo_call commands 4 (line "showmappings 0x1000 0x3000") 0
  = Some (0, [ PgdirWalk 4026531840 4096 0;
               Deref 12288 0; Deref 12288 0; Deref 12288 0;
               Deref 12288 0; Deref 12288 0;
               Cprintf "va 0x%x: 0x%x PTE_P %d PTE_W %d PTE_U %d\n"
                 [AInt 4096; AInt 1191936; AInt 1; AInt 2; AInt 4];
               PgdirWalk 4026531840 8192 0;
               Cprintf "va 0x%x is not mapped\n" [AInt 8192];
               PgdirWalk 4026531840 12288 0;
               Cprintf "va 0x%x is not mapped\n" [AInt 12288] ]).
Proof. vm_compute. reflexivity. Qed.

Example run_showmappings_single :
  walked <$> (snd <$> runcmd demo_call commands 2 (line "showmappings 0x1000 0x1000") 0)
  = Some [4096].
Proof. vm_compute. reflexivity. Qed.

Example run_showmappings_top_of_memory :
  runcmd demo_call commands 5000 (line "showmappings 0xfffff000 0xffffffff") 0 = None.
Proof. vm_compute. reflexivity. Qed.

Example run_backtrace :
  console <$> (snd <$> runcmd demo_call commands 3 (line "backtrace") 0)
  = Some [ ("Stack backtrace:\n", []);
           ("  ebp %08x eip %08x ", [AInt 4096; AInt 4027580480]);
           ("args ", []);
           ("%08x ", [AInt 0]); ("%08x ", [AInt 0]); ("%08x ", [AInt 0]);
           ("%08x ", [AInt 0]); ("%08x ", [AInt 0]);
           ("\n", []);
           ("\t%s:%d: %.*s+%d\n",
            [AStr "kern/init.c"; AInt 24; AInt 14; AStr "test_backtrace"; AInt 64]);
           ("  ebp %08x eip %08x ", [AInt 8192; AInt 4027580672]);
           ("args ", []);
           ("%08x ", [AInt 0]); ("%08x ", [AInt 0]); ("%08x ", [AInt 0]);
           ("%08x ", [AInt 0]); ("%08x ", [AInt 0]);
           ("\n", []) ].
Proof. vm_compute. reflexivity. Qed.

Example run_blank_line :
  runcmd demo_call commands 0 (line "   ") 0 = Some (0, []).
Proof. vm_compute. reflexivity. Qed.

Example run_unknown :
  runcmd demo_call commands 0 (line "exit now") 0
  = Some (0, [Cprintf "Unknown command '%s'\n" [AStr "exit"]]).
Proof. vm_compute. reflexivity. Qed.

Example tokens_of_spaces :
  tokens_of (line "  ab   c ") = [line "ab"; line "c"].
Proof. vm_compute. reflexivity. Qed.

Example tokens_of_showmappings :
  tokens_of (line "showmappings 0x1000 0x3000")
  = [line "showmappings"; line "0x1000"; line "0x3000"].
Proof. vm_compute. reflexivity. Qed.

(** ** The theorems at concrete inputs *)

Lemma nul_free_line_showmappings : nul_free (line "showmappings 0x1000 0x3000").
Proof. unfold nul_free. repeat (constructor; [discriminate|]). constructor. Defined.

Lemma nul_free_line_sixteen : nul_free (line "a b c d e f g h i j k l m n o p").
Proof. unfold nul_free. repeat (constructor; [discriminate|]). constructor. Defined.

(** The two frames of the small machine are unwound into two lines. *)
Lemma backtrace_synthetic_chain_witness :
  exists t,
    mon_backtrace 4096 demo_mem demo_debuginfo 3 1 ["backtrace"] 0 = Some (0, t)
    /\ frame_line_count t = 2%nat
    /\ Forall (fun b => b <> 0 /\ b ∈ [4096; 8192]) (deref_bases t).
Proof.
  destruct (backtrace_synthetic_chain 4096 demo_mem demo_debuginfo
              [4096; 8192] 1 ["backtrace"] 0)
    as (t & Hrun & _ & Hcount & Hder).
  - refine (chain_link demo_mem 4096 [8192] _ _); [discriminate|].
    refine (chain_link demo_mem 8192 [] _ _); [discriminate|].
    exact (chain_root demo_mem).
  - exists t. split; [apply Hrun; apply le_n|]. split; [exact Hcount|exact Hder].
Defined.





(** [showmappings 0x3000 0x1000] is rejected with one line. *)
Lemma showmappings_rejects_witness :
  demo_showmappings 0%nat 3%nat ["showmappings"; "0x3000"; "0x1000"] 0
  = Some (0, [Cprintf "begin va (0x%x) is greater than end va (0x%x)\n"
                [AInt 12288; AInt 4096]]).
Proof.
  apply (proj2 (showmappings_rejects demo_mem 0 demo_KADDR demo_walk strtol_model
                  0 3 ["showmappings"; "0x3000"; "0x1000"] 0)).
  - reflexivity.
  - vm_compute. reflexivity.
Defined.

(** The loop from [0x1000] to [0x3000] terminates. *)
Lemma showmappings_loop_termination_witness :
  exists t, showmappings_loop demo_mem demo_walk 4 0 4096 12288 = Some (tt, t).
Proof.
  destruct (proj1 (showmappings_loop_termination demo_mem demo_walk) 0 4096 12288)
    as (t & Hrun).
  - split; [discriminate|discriminate].
  - reflexivity.
  - exists t. apply Hrun. apply le_n.
Defined.

(** The three tokens of [showmappings 0x1000 0x3000]. *)
Lemma tokenizer_maximal_runs_witness :
  exists b argc argv,
    parse_loop 28 (line "showmappings 0x1000 0x3000") 0 0
      (<[0%nat := None]> (replicate MAXARGS None))
    = Some (Args b argc argv, [])
    /\ argv_strings b argc argv = ["showmappings"; "0x1000"; "0x3000"].
Proof.
  destruct (tokenizer_maximal_runs (line "showmappings 0x1000 0x3000")
              nul_free_line_showmappings)
    as ((b & argc & argv & Hrun & Hstr & _) & _).
  - vm_compute. repeat constructor.
  - exists b, argc, argv. split; [exact Hrun|exact Hstr].
Defined.

(** A line of sixteen tokens is not tokenized into its sixteen runs:
    the parsing loop gives up at the sixteenth. *)
Lemma tokenizer_sixteen_counterexample :
  ~ tokenizes (line "a b c d e f g h i j k l m n o p").
Proof.
  intros (b & argc & argv & Hrun & _). vm_compute in Hrun. discriminate.
Qed.

(** Sixteen tokens: the report, and nothing else. *)
Lemma runcmd_too_many_witness :
  runcmd demo_call commands 0 (line "a b c d e f g h i j k l m n o p") 0
  = Some (0, [Cprintf "Too many arguments (max %d)\n" [AInt 16]]).
Proof.
  apply (proj2 (runcmd_too_many demo_call commands
                  (line "a b c d e f g h i j k l m n o p") 0 0
                  nul_free_line_sixteen ltac:(vm_compute; repeat constructor))).
Defined.

(** [help] is found first in the table and its handler is called with
    the token list. *)
Lemma dispatch_cases_witness :
  dispatch demo_call commands 0 1 ["help"] 0 = demo_call Mon_help 0%nat 1%nat ["help"] 0.
Proof.
  apply (proj1 (proj2 (proj2 (dispatch_cases demo_call commands 0 1 ["help"] 0)))
           [] (mkCommand "help" "Display this list of commands" Mon_help)
           [ mkCommand "kerninfo" "Display information about the kernel" Mon_kerninfo;
             mkCommand "backtrace" "Display information about the backtrace" Mon_backtrace;
             mkCommand "showmappings"
               "Display memory mappings for a range of virtual addresses" Mon_showmappings ]).
  - discriminate.
  - reflexivity.
  - constructor.
  - reflexivity.
Defined.

(** ** More machines, and the further theorems at concrete inputs *)

(** A memory in which every word reads [0x1000]: the frame at [0x1000]
    is its own caller. *)
Definition loop_mem (a : Z) : Z := 4096.



Lemma link_after_loop_mem n : link_after loop_mem n 4096 = 4096.
Proof. induction n as [|n IH]; [done|]. simpl. by rewrite IH. Qed.

(** The run of [backtrace] on the small machine went through a chain. *)
Lemma backtrace_returns_on_chain_witness :
  exists fps, frame_chain demo_mem (wrap32 4096) fps /\ (length fps < 3)%nat.
Proof.
  destruct (mon_backtrace 4096 demo_mem demo_debuginfo 3 1 ["backtrace"] 0)
    as [[r t]|] eqn:Hrun; [|vm_compute in Hrun; discriminate Hrun].
  destruct (backtrace_returns_on_chain _ _ _ _ _ _ _ _ _ Hrun)
    as (_ & fps & Hch & Hlen & _).
  exists fps. split; [exact Hch|exact Hlen].
Defined.

(** On the self-linked frame [backtrace] is still running after a
    thousand frames. *)
Lemma backtrace_never_returns_witness :
  mon_backtrace 4096 loop_mem demo_debuginfo 1000 1 ["backtrace"] 0 = None.
Proof.
  apply backtrace_never_returns. intros n.
  change (wrap32 4096) with 4096. rewrite link_after_loop_mem. discriminate.
Defined.

(** From [0xfff] to [0xfffff000] the inspector returns, although the
    range reaches into the last page of the address space. *)
Lemma showmappings_returns_iff_witness :
  exists fuel r t,
    demo_showmappings fuel 3%nat ["showmappings"; "0xfff"; "0xfffff000"] 0 = Some (r, t).
Proof.
  apply (proj2 (proj1 (showmappings_returns_iff demo_mem 0 demo_KADDR demo_walk
                         strtol_model ["showmappings"; "0xfff"; "0xfffff000"] 0
                         ltac:(vm_compute; discriminate)))).
  vm_compute. reflexivity.
Defined.

(** [showmappings 0x1000 0x3000] on the small machine only reads. *)
Lemma showmappings_read_only_witness :
  exists t,
    demo_showmappings 4%nat 3%nat ["showmappings"; "0x1000"; "0x3000"] 0 = Some (0, t)
    /\ Forall (fun c => c.2 = 0) (walk_calls t)
    /\ Forall (fun b => b <> 0) (deref_bases t).
Proof.
  destruct (demo_showmappings 4%nat 3%nat ["showmappings"; "0x1000"; "0x3000"] 0)
    as [[r t]|] eqn:Hrun; [|vm_compute in Hrun; discriminate Hrun].
  destruct (showmappings_read_only demo_mem 0 demo_KADDR demo_walk strtol_model
              _ _ _ _ _ _ Hrun) as (-> & Hc & Hd).
  exists t. split; [reflexivity|]. split.
  - eapply Forall_impl; [exact Hc|]. intros c Hcc. exact (proj2 Hcc).
  - eapply Forall_impl; [exact Hd|]. intros b Hb. exact (proj1 Hb).
Defined.


(** [showmappings 0x1000 0x3000] parsed into an array whose sixteen
    slots all held the stray pointer 999: the buffer keeps its 26
    characters, and slot 3, where [argc] stops, still holds the stray
    pointer when the loop is left. *)
Lemma parse_loop_memory_safe_witness :
  exists r tr,
    parse_loop 27 (line "showmappings 0x1000 0x3000") 0 0
      (<[0%nat := None]> (replicate 16 (Some 999%nat))) = Some (r, tr)
    /\ length (parsed_buf r) = 26%nat
    /\ parsed_argv r !! 3%nat = Some (Some 999%nat).
Proof.
  destruct (parse_loop_memory_safe (line "showmappings 0x1000 0x3000")
              (replicate 16 (Some 999%nat)) nul_free_line_showmappings eq_refl)
    as (r & tr & Hrun & Hlen & _ & _ & _ & _ & Hout & _).
  exists r, tr. split; [exact Hrun|]. split; [exact Hlen|].
  rewrite (Hout 3%nat); [reflexivity|].
  change (parse_loop (S (length (line "showmappings 0x1000 0x3000")))
            (line "showmappings 0x1000 0x3000") 0 0
            (<[0%nat := None]> (replicate 16 (Some 999%nat)))) with
    (Some (Args (line "showmappings" ++ [zero] ++ line "0x1000" ++ [zero] ++ line "0x3000")
             3 (<[2%nat := Some 20%nat]> (<[1%nat := Some 13%nat]>
                  (<[0%nat := Some 0%nat]> (<[0%nat := None]> (replicate 16 (Some 999%nat)))))),
           @nil event)) in Hrun.
  injection Hrun as <- _. apply le_n.
Defined.

(** The fifteen strings left behind by a line of sixteen tokens. *)
Lemma parse_loop_tokens_well_formed_witness :
  exists r tr,
    parse_loop 32 (line "a b c d e f g h i j k l m n o p") 0 0
      (<[0%nat := None]> (replicate MAXARGS None)) = Some (r, tr)
    /\ length (argv_strings (parsed_buf r) (parsed_argc r) (parsed_argv r)) = parsed_argc r.
Proof.
  destruct (parse_loop 32 (line "a b c d e f g h i j k l m n o p") 0 0
              (<[0%nat := None]> (replicate MAXARGS None)))
    as [[r tr]|] eqn:Hrun; [|vm_compute in Hrun; discriminate Hrun].
  exists r, tr. split; [reflexivity|].
  exact (proj1 (parse_loop_tokens_well_formed _ r tr nul_free_line_sixteen Hrun)).
Defined.

(** [help] between two spaces and one is parsed back as [help]. *)
Lemma parse_loop_layout_witness :
  exists b argv,
    parse_loop 8 (line "  help ") 0 0 (<[0%nat := None]> (replicate MAXARGS None))
    = Some (Args b 1 argv, [])
    /\ argv_strings b 1 argv = ["help"].
Proof.
  refine (parse_loop_layout [line "help"] (line "  help ") _ _).
  - refine (layout_token (line "  ") (line "help") (line " ") [] _ _ _ _).
    + repeat constructor.
    + split; [discriminate|]. repeat constructor; discriminate.
    + right. reflexivity.
    + apply layout_blank. repeat constructor.
  - repeat constructor.
Defined.


(** A kernel image of 72244 bytes is reported as 71KB. *)
Lemma kerninfo_footprint_witness :
  exists t,
    mon_kerninfo 1048588 4027580428 4027587937 4027650048 4027652672
      0 1 ["kerninfo"] 0 = Some (0, t)
    /\ last (console t)
       = Some ("Kernel executable memory footprint: %dKB\n", [AInt 71]).
Proof.
  destruct (kerninfo_footprint 1048588 4027580428 4027587937 4027650048 4027652672
              0 1 ["kerninfo"] 0)
    as (t & Hrun & _ & Hlast & _).
  - split; [discriminate|reflexivity].
  - exists t. split; [exact Hrun|exact Hlast].
Defined.
